(** * dht22.c: the DHT22 one-wire decoder, embedded and verified

    The C source talks to three external collaborators: the wiringPi GPIO
    driver, the wall clock ([gettimeofday]) and the scheduler
    ([sched_setscheduler]).  They are modelled by a [World] that is threaded
    through every call:

    - the answers of [digitalRead] and [gettimeofday] are oracle streams,
      indexed by the number of calls made so far, so that every possible
      run of the hardware and of the clock is some [World];
    - the scheduling policy is a field that [sched_setscheduler] overwrites
      when the request is granted;
    - every other driver call (pin mode, write, delays) is appended to a log;
    - the delays asked for add up in a field, and every read of the line
      records the value of that field, so that the world tells whether a
      read was made before or after a delay.

    The two busy-wait loops of [sensorLowHighWait] have no static bound, so
    the embedded functions take a [fuel] that bounds the number of polls of
    one loop; [None] means the fuel ran out, never a C-level result. *)

From Stdlib Require Import PrimFloat.
From Stdlib Require Uint63.
From Stdlib Require Import ZArith QArith Bool List Lia Arith String Ascii.
Import ListNotations.

Local Open Scope Z_scope.

(** ** Data *)

(** wiringPi.h: [LOW] is 0 and [HIGH] is 1; [digitalRead] answers one of them. *)
Inductive level : Type := LOW | HIGH.

Definition level_eqb (a b : level) : bool :=
  match a, b with
  | LOW, LOW | HIGH, HIGH => true
  | _, _ => false
  end.

(** wiringPi.h: pin modes used by the source. *)
Inductive pin_mode : Type := INPUT | OUTPUT.

(** sched.h: the two policies the source asks for. *)
Inductive sched_policy : Type := SCHED_OTHER | SCHED_FIFO.

(** sys/time.h: [struct timeval]; both fields are C [long]s, far from
    their bounds for any real clock, and kept as unbounded integers. *)
Record timeval : Type := mkTimeval { tv_sec : Z; tv_usec : Z }.

(** Driver calls that leave a trace but return nothing. *)
Inductive event : Type :=
| EvSched (p : sched_policy) (prio : Z)
| EvPinMode (pin : Z) (m : pin_mode)
| EvDigitalWrite (pin : Z) (l : level)
| EvDelay (ms : Z)
| EvDelayMicroseconds (us : Z)
| EvStderr (msg : string).

Record World : Type := mkWorld {
  input : Z -> nat -> level;    (* k-th answer of digitalRead, per pin *)
  nreads : nat;                 (* digitalRead calls made so far *)
  clock : nat -> timeval;       (* k-th answer of gettimeofday *)
  nclock : nat;                 (* gettimeofday calls made so far *)
  fifo_priority_max : Z;        (* sched_get_priority_max(SCHED_FIFO) *)
  policy : sched_policy;        (* scheduling policy of the thread *)
  sched_priority : Z;           (* its static priority *)
  wiringPi_status : Z;          (* what wiringPiSetup() answers *)
  log : list event;             (* newest first *)
  privileged : bool;            (* may the thread be given a real-time policy *)
  delayed : Z;                  (* microseconds of delay asked for so far *)
  sampled_at : list Z           (* [delayed] at each read of the line,
                                   newest first *)
}.

Definition with_reads (w : World) (n : nat) : World :=
  mkWorld (input w) n (clock w) (nclock w) (fifo_priority_max w)
          (policy w) (sched_priority w) (wiringPi_status w) (log w)
          (privileged w) (delayed w) (sampled_at w).

(** One more read of the line, made when [delayed w] microseconds of delay
    have been asked for. *)
Definition with_sample (w : World) : World :=
  mkWorld (input w) (nreads w) (clock w) (nclock w) (fifo_priority_max w)
          (policy w) (sched_priority w) (wiringPi_status w) (log w)
          (privileged w) (delayed w) (delayed w :: sampled_at w).

Definition with_clock (w : World) (n : nat) : World :=
  mkWorld (input w) (nreads w) (clock w) n (fifo_priority_max w)
          (policy w) (sched_priority w) (wiringPi_status w) (log w)
          (privileged w) (delayed w) (sampled_at w).

Definition with_sched (w : World) (p : sched_policy) (prio : Z) : World :=
  mkWorld (input w) (nreads w) (clock w) (nclock w) (fifo_priority_max w)
          p prio (wiringPi_status w) (log w)
          (privileged w) (delayed w) (sampled_at w).

(** The time a driver call makes the program wait, in microseconds. *)
Definition event_delay (e : event) : Z :=
  match e with
  | EvDelay ms => 1000 * ms
  | EvDelayMicroseconds us => us
  | _ => 0
  end.

Definition with_event (w : World) (e : event) : World :=
  mkWorld (input w) (nreads w) (clock w) (nclock w) (fifo_priority_max w)
          (policy w) (sched_priority w) (wiringPi_status w) (e :: log w)
          (privileged w) (delayed w + event_delay e) (sampled_at w).

(** ** The monad of the embedding: state passing over [World], with
    failure reserved for exhausted fuel. *)

Definition M (A : Type) : Type := World -> option (A * World).

Definition ret {A} (a : A) : M A := fun w => Some (a, w).

Definition bind {A B} (m : M A) (k : A -> M B) : M B :=
  fun w => match m w with
           | Some (a, w') => k a w'
           | None => None
           end.

Definition out_of_fuel {A} : M A := fun _ => None.

Declare Scope dht_scope.
Delimit Scope dht_scope with dht.
Notation "x <- m ;; k" := (bind m (fun x => k))
  (at level 61, m at next level, right associativity) : dht_scope.
Notation "m ;;; k" := (bind m (fun _ => k))
  (at level 61, right associativity) : dht_scope.
Local Open Scope dht_scope.

(** ** External collaborators *)

Definition digitalRead (pin : Z) : M level :=
  fun w => Some (input w pin (nreads w),
                 with_sample (with_reads w (S (nreads w)))).

Definition gettimeofday : M timeval :=
  fun w => Some (clock w (nclock w), with_clock w (S (nclock w))).

Definition emit (e : event) : M unit :=
  fun w => Some (tt, with_event w e).

Definition pinMode (pin : Z) (m : pin_mode) : M unit := emit (EvPinMode pin m).
Definition digitalWrite (pin : Z) (l : level) : M unit := emit (EvDigitalWrite pin l).
Definition delay (ms : Z) : M unit := emit (EvDelay ms).
Definition delayMicroseconds (us : Z) : M unit := emit (EvDelayMicroseconds us).

(** Whether a request for policy [p] is granted.  A real-time policy is
    given to a privileged thread only: without the privilege the call fails
    with EPERM.  A request for the default policy is always granted. *)
Definition granted (w : World) (p : sched_policy) : bool :=
  match p with
  | SCHED_FIFO => privileged w
  | SCHED_OTHER => true
  end.

(** What a request for policy [p] does to the thread: a request that is not
    granted leaves policy and priority as they were. *)
Definition scheduled (w : World) (p : sched_policy) (prio : Z) : World :=
  with_sched w (if granted w p then p else policy w)
               (if granted w p then prio else sched_priority w).

(** The call is recorded whether it is granted or not; the source ignores
    what it returns (lines 55 and 65). *)
Definition sched_setscheduler (p : sched_policy) (prio : Z) : M unit :=
  fun w => Some (tt, with_event (scheduled w p prio) (EvSched p prio)).

(** sys/time.h macros, as glibc writes them. *)
Definition timerclear : timeval := mkTimeval 0 0.

Definition timeradd (a b : timeval) : timeval :=
  let sec := tv_sec a + tv_sec b in
  let usec := tv_usec a + tv_usec b in
  if 1000000 <=? usec then mkTimeval (sec + 1) (usec - 1000000)
  else mkTimeval sec usec.

Definition timersub (a b : timeval) : timeval :=
  let sec := tv_sec a - tv_sec b in
  let usec := tv_usec a - tv_usec b in
  if usec <? 0 then mkTimeval (sec - 1) (usec + 1000000)
  else mkTimeval sec usec.

(** [timercmp(a, b, >)] *)
Definition timercmp_gt (a b : timeval) : bool :=
  if tv_sec a =? tv_sec b then tv_usec b <? tv_usec a
  else tv_sec b <? tv_sec a.

(** ** dht22.c *)

Definition TRUE : bool := true.
Definition FALSE : bool := false.

Definition QUERYRETRIES : nat := 4.

(** lines 49-56 *)
Definition setMaximumPriority : M unit :=
  fun w => sched_setscheduler SCHED_FIFO (fifo_priority_max w) w.

(** lines 59-66 *)
Definition setDefaultPriority : M unit :=
  sched_setscheduler SCHED_OTHER 0.

(** One busy-wait loop of [sensorLowHighWait] (lines 80-87 with
    [lvl = HIGH], lines 96-103 with [lvl = LOW]).  The answer is [true]
    when the loop condition became false and [false] when the body ran
    [return FALSE]. *)
Fixpoint pollWhile (fuel : nat) (GPIO : Z) (lvl : level) (timeUp : timeval)
  : M bool :=
  match fuel with
  | O => out_of_fuel
  | S fuel' =>
      l <- digitalRead GPIO ;;
      if level_eqb l lvl then
        now <- gettimeofday ;;
        if timercmp_gt now timeUp then ret false
        else pollWhile fuel' GPIO lvl timeUp
      else ret true
  end.

(** lines 72-76 and 89-93: a fresh deadline, 1 ms after the current time. *)
Definition setTimer : M timeval :=
  now <- gettimeofday ;;
  let timeOut := mkTimeval (tv_sec timerclear) 1000 in
  ret (timeradd now timeOut).

(** lines 69-107 *)
Definition sensorLowHighWait (fuel : nat) (GPIO : Z) : M bool :=
  timeUp <- setTimer ;;
  left_high <- pollWhile fuel GPIO HIGH timeUp ;;
  if negb left_high then ret FALSE else
  timeUp <- setTimer ;;
  reached_high <- pollWhile fuel GPIO LOW timeUp ;;
  if negb reached_high then ret FALSE else
  ret TRUE.

(** C arrays of [uint8_t]: lists of integers, written by index.  Every
    index the source writes is inside the array. *)
Fixpoint array_set (a : list Z) (i : nat) (v : Z) : list Z :=
  match a, i with
  | [], _ => []
  | _ :: a', O => v :: a'
  | x :: a', S i' => x :: array_set a' i' v
  end.

Definition array_get (a : list Z) (i : nat) : Z := nth i a 0.

(** Truncation of an [int] to [uint8_t]. *)
Definition to_uint8 (x : Z) : Z := x mod 256.

(** lines 114-131: the [for] loop of [retrieveByte] with [remaining]
    iterations still to run, that is [bit = 8 - remaining]. *)
Fixpoint retrieveBits (remaining : nat) (fuel : nat) (GPIO : Z) (result : Z)
  : M Z :=
  match remaining with
  | O => ret result
  | S remaining' =>
      ok <- sensorLowHighWait fuel GPIO ;;
      if negb ok then ret 0 else
      delayMicroseconds 30 ;;;
      let result := to_uint8 (Z.shiftl result 1) in
      l <- digitalRead GPIO ;;
      let result := if level_eqb l HIGH then to_uint8 (Z.lor result 1)
                    else result in
      retrieveBits remaining' fuel GPIO result
  end.

(** lines 110-135 *)
Definition retrieveByte (fuel : nat) (GPIO : Z) : M Z :=
  retrieveBits 8 fuel GPIO 0.

(** What the byte loop of [querySensor] carries from one iteration to the
    next. *)
Record queryState : Type := mkQueryState {
  retrievedBytes : list Z;      (* uint8_t retrievedBytes[5] *)
  results : list Z;             (* uint8_t results[4], the caller's array *)
  queryChecksum : Z             (* uint8_t queryChecksum *)
}.

(** lines 168-178: the [for] loop of [querySensor] with [remaining]
    iterations still to run, at index [byte]. *)
Fixpoint retrieveBytes (remaining : nat) (byte : nat) (fuel : nat) (GPIO : Z)
  (st : queryState) : M queryState :=
  match remaining with
  | O => ret st
  | S remaining' =>
      b <- retrieveByte fuel GPIO ;;
      let rb := array_set (retrievedBytes st) byte b in
      let st :=
        if (byte <? 4)%nat then
          mkQueryState rb
            (array_set (results st) byte (array_get rb byte))
            (to_uint8 (queryChecksum st + array_get rb byte))
        else mkQueryState rb (results st) (queryChecksum st) in
      retrieveBytes remaining' (S byte) fuel GPIO st
  end.

(** lines 180-204: what [querySensor] does once the five bytes are in. *)
Definition finishQuery (then_ : timeval) (st : queryState) : M (bool * list Z) :=
  let queryChecksum := Z.land (queryChecksum st) 255 in
  now <- gettimeofday ;;
  let took := timersub now then_ in
  setDefaultPriority ;;;
  if negb (tv_sec took =? 0) || (16000 <? tv_usec took) then
    ret (FALSE, results st)
  else
    ret (queryChecksum =? array_get (retrievedBytes st) 4, results st).

(** lines 148-160: the wake sequence. *)
Definition wakeSensor (GPIO : Z) : M unit :=
  pinMode GPIO OUTPUT ;;;
  digitalWrite GPIO LOW ;;;
  delay 10 ;;;
  digitalWrite GPIO HIGH ;;;
  delayMicroseconds 40 ;;;
  pinMode GPIO INPUT.

(** lines 138-205.  The caller's [results] array goes in and comes back;
    [retrievedBytes] starts uninitialised in C and is written at every
    index before it is read, so its initial content is immaterial. *)
Definition querySensor (fuel : nat) (GPIO : Z) (results0 : list Z)
  : M (bool * list Z) :=
  setMaximumPriority ;;;
  then_ <- gettimeofday ;;
  wakeSensor GPIO ;;;
  ack <- sensorLowHighWait fuel GPIO ;;
  if negb ack then ret (FALSE, results0) else
  st <- retrieveBytes 5 0 fuel GPIO (mkQueryState (repeat 0 5) results0 0) ;;
  finishQuery then_ st.

(** ** dht22.h, which the repository does not ship with the source *)

(** [struct sensorOutput]: the two fields receive [n / 10.0] for a 16-bit
    [n], possibly negated, and are compared with integral bounds; they are
    kept as exact rationals.  [binary64_same_tests] below checks that C
    doubles answer every such comparison in the same way. *)
Record sensorOutput : Type := mkSensorOutput { temperature : Q; humidity : Q }.

(** Modelled from the spec: the macros [SENSOR_TMP_MIN], [SENSOR_TMP_MAX],
    [SENSOR_HUM_MIN] and [SENSOR_HUM_MAX] of dht22.h, the documented
    operating ranges -40 to +80 degrees and 0 to 100 percent. *)
Definition SENSOR_TMP_MIN : Q := inject_Z (-40).
Definition SENSOR_TMP_MAX : Q := inject_Z 80.
Definition SENSOR_HUM_MIN : Q := inject_Z 0.
Definition SENSOR_HUM_MAX : Q := inject_Z 100.

(** How [parseSensorOutput] ends: [exit(status)], or a returned struct. *)
Inductive outcome : Type :=
| Exited (status : Z)
| Returned (r : sensorOutput).

Definition EXIT_FAILURE : Z := 1.

Definition wiringPiSetup : M Z := fun w => Some (wiringPi_status w, w).

(** lines 231-232 *)
Definition rawTemperature (sensorData : list Z) : Q :=
  (inject_Z (array_get sensorData 2 * 256 + array_get sensorData 3) / inject_Z 10)%Q.

Definition rawHumidity (sensorData : list Z) : Q :=
  (inject_Z (array_get sensorData 0 * 256 + array_get sensorData 1) / inject_Z 10)%Q.

(** lines 231-237 *)
Definition parseReading (sensorData : list Z) : sensorOutput :=
  let result := mkSensorOutput (rawTemperature sensorData) (rawHumidity sensorData) in
  if negb (Z.land (array_get sensorData 2) 128 =? 0) then
    mkSensorOutput (temperature result * inject_Z (-1))%Q (humidity result)
  else result.

(** line 240 *)
Definition withinCapabilities (result : sensorOutput) : bool :=
  Qle_bool SENSOR_TMP_MIN (temperature result)
  && Qle_bool (temperature result) SENSOR_TMP_MAX
  && Qle_bool SENSOR_HUM_MIN (humidity result)
  && Qle_bool (humidity result) SENSOR_HUM_MAX.

Section Orchestrator.

(** The macro [SENSOR_NA] of dht22.h; the source only stores it. *)
Variable SENSOR_NA : Q.

(** lines 224-257: the [while (queryRetries--)] loop entered with
    [queryRetries] attempts left, and what follows it. *)
Fixpoint queryLoop (queryRetries : nat) (fuel : nat) (GPIO : Z)
  : M sensorOutput :=
  match queryRetries with
  | O => ret (mkSensorOutput SENSOR_NA SENSOR_NA)
  | S queryRetries' =>
      (* memset(sensorData, 0, sizeof(sensorData)) on uint8_t sensorData[4] *)
      let sensorData := repeat 0 4 in
      q <- querySensor fuel GPIO sensorData ;;
      let (ok, sensorData) := q in
      let retry := delay 2000 ;;; queryLoop queryRetries' fuel GPIO in
      if ok then
        let result := parseReading sensorData in
        if withinCapabilities result then ret result else retry
      else retry
  end.

(** lines 208-258 *)
Definition parseSensorOutput (fuel : nat) (GPIO : Z) : M outcome :=
  status <- wiringPiSetup ;;
  if status =? -1 then
    emit (EvStderr ("wiringPi failed to initialize." ++ String "010" EmptyString)) ;;;
    ret (Exited EXIT_FAILURE)
  else
    result <- queryLoop (QUERYRETRIES + 1) fuel GPIO ;;
    ret (Returned result).

End Orchestrator.

(** ** Scripted worlds, used to run the embedding on concrete inputs *)

(** The line as a well-behaved sensor drives it: one LOW then HIGH pair per
    transition wait, followed for each data bit by the sampled level.
    Reads beyond the script answer [rest]. *)
Definition bits_of_byte (v : Z) : list bool :=
  map (Z.testbit v) [7; 6; 5; 4; 3; 2; 1; 0].

Definition bit_cell (b : bool) : list level :=
  [LOW; HIGH; if b then HIGH else LOW].

Definition sensor_trace (payload : list Z) : list level :=
  LOW :: HIGH :: flat_map (fun v => flat_map bit_cell (bits_of_byte v)) payload.

Definition scripted_input (script : list level) (rest : level)
  : Z -> nat -> level :=
  fun _ k => nth k script rest.

(** A clock that advances by [step] microseconds per call. *)
Definition ticking_clock (sec usec step : Z) : nat -> timeval :=
  fun k =>
    let t := usec + step * Z.of_nat k in
    mkTimeval (sec + t / 1000000) (t mod 1000000).

(** The first [n] answers of a clock, kept as a table; later calls all
    get the answer number [n]. *)
Definition recorded_clock (n : nat) (c : nat -> timeval) : nat -> timeval :=
  fun k => nth k (map c (seq 0 n)) (c n).

Definition scripted_world (script : list level) (rest : level) (step : Z)
  : World :=
  mkWorld (scripted_input script rest) 0
          (recorded_clock 256 (ticking_clock 1700000000 0 step)) 0
          99 SCHED_OTHER 0 0 [] true 0 [].

(** ** Specification-side vocabulary *)

(** The world after [r] more reads of the line and [c] more reads of the
    clock. *)
Definition advance (w : World) (r c : nat) : World :=
  mkWorld (input w) (nreads w + r) (clock w) (nclock w + c)
          (fifo_priority_max w) (policy w) (sched_priority w)
          (wiringPi_status w) (log w)
          (privileged w) (delayed w) (repeat (delayed w) r ++ sampled_at w).

(** A [timeval] as a count of microseconds; [gettimeofday] only answers
    values with [tv_usec] inside one second. *)
Definition microseconds (t : timeval) : Z := tv_sec t * 1000000 + tv_usec t.

Definition normalised (t : timeval) : Prop := 0 <= tv_usec t < 1000000.

Definition normalised_clock (w : World) : Prop :=
  forall k, normalised (clock w k).

Section TimedWaitSpec.

Variable GPIO : Z.

(** Poll [i] of a sub-wait that starts in [w]: the level it reads, and the
    time it reads when the level has not changed yet. *)
Definition polled_level (w : World) (i : nat) : level :=
  input w GPIO (nreads w + i).

Definition polled_time (w : World) (i : nat) : timeval :=
  clock w (nclock w + i).

(** Polls [0 .. k-1] of the sub-wait all see the line at [lvl], none of
    them later than [budget] microseconds after [start]. *)
Definition waiting (lvl : level) (start : timeval) (budget : Z) (w : World)
  (k : nat) : Prop :=
  forall i, (i < k)%nat ->
    polled_level w i = lvl /\
    microseconds (polled_time w i) <= microseconds start + budget.

(** The line leaves [lvl] at poll [k], inside the budget. *)
Definition leaves_within (lvl : level) (start : timeval) (budget : Z)
  (w : World) (k : nat) : Prop :=
  waiting lvl start budget w k /\ polled_level w k <> lvl.

(** The line is still at [lvl] at poll [k], and the budget is spent. *)
Definition overruns (lvl : level) (start : timeval) (budget : Z)
  (w : World) (k : nat) : Prop :=
  waiting lvl start budget w k /\ polled_level w k = lvl /\
  microseconds start + budget < microseconds (polled_time w k).

(** One sub-wait on [lvl], started in [w]: the clock is read once and the
    deadline is 1000 microseconds after that reading; then the line is
    polled.  The answer is [true] when the line leaves [lvl] inside the
    budget and [false] when the budget is overrun first. *)
Inductive SubWait (lvl : level) (w : World) : bool -> World -> Prop :=
| SW_left (k : nat) :
    leaves_within lvl (clock w (nclock w)) 1000 (advance w 0 1) k ->
    SubWait lvl w true (advance w (S k) (S k))
| SW_overrun (k : nat) :
    overruns lvl (clock w (nclock w)) 1000 (advance w 0 1) k ->
    SubWait lvl w false (advance w (S k) (S (S k))).

(** The Timed Wait Primitive in the words of the specification: a
    sub-wait for the line to leave HIGH, then a sub-wait for it to leave
    LOW, that is to reach HIGH; success when both end inside their
    budgets, failure as soon as one overruns. *)
Inductive TimedWait (w : World) : bool -> World -> Prop :=
| TW_both (w1 w2 : World) (b : bool) :
    SubWait HIGH w true w1 ->
    SubWait LOW w1 b w2 ->
    TimedWait w b w2
| TW_first_overrun (w1 : World) :
    SubWait HIGH w false w1 ->
    TimedWait w false w1.

End TimedWaitSpec.

Definition one_ms_after (start : timeval) : timeval :=
  timeradd start (mkTimeval (tv_sec timerclear) 1000).

Definition bit_of (l : level) : Z :=
  match l with HIGH => 1 | LOW => 0 end.

(** What one iteration of the bit loop does to [result] (lines 124-130). *)
Definition shift_bit (result : Z) (l : level) : Z :=
  let result := to_uint8 (Z.shiftl result 1) in
  if level_eqb l HIGH then to_uint8 (Z.lor result 1) else result.

Definition shift_in (result : Z) (bits : list level) : Z :=
  fold_left shift_bit bits result.

(** After a transition wait that ended in [w1]: first the 30 microsecond
    delay, which leads to [w2] with [delayed w2 = delayed w1 + 30]; then one
    read of the line in [w2], which is therefore recorded in [sampled_at]
    at [delayed w1 + 30].  A read made before the delay would be recorded
    at [delayed w1]. *)
Definition sample_after (GPIO : Z) (w1 : World) : level * World :=
  let w2 := with_event w1 (EvDelayMicroseconds 30) in
  (input w2 GPIO (nreads w2), advance w2 1 0).

(** When the reads of a run of bit cells are made.  The first cell starts
    with [d] microseconds of delay behind it, and [polls] lists for each
    cell the number of polls of its transition wait: the polls are made at
    the delay the cell started with, the one sample 30 microseconds later.
    Newest first. *)
Fixpoint cell_times (d : Z) (polls : list nat) : list Z :=
  match polls with
  | [] => []
  | r :: polls' => cell_times (d + 30) polls' ++ (d + 30) :: repeat d r
  end.

(** A run of bit cells: each is a successful transition wait followed by
    the delayed sample; the samples are listed in the order taken. *)
Inductive BitCells (GPIO : Z) : World -> list level -> World -> Prop :=
| BC_nil (w : World) : BitCells GPIO w [] w
| BC_cons (w w1 : World) (bits : list level) (w' : World) :
    TimedWait GPIO w true w1 ->
    BitCells GPIO (snd (sample_after GPIO w1)) bits w' ->
    BitCells GPIO w (fst (sample_after GPIO w1) :: bits) w'.

(** Eight samples as a byte, the first sample being the most significant
    bit. *)
Definition msb_first (bits : list level) : Z :=
  match bits with
  | [b7; b6; b5; b4; b3; b2; b1; b0] =>
      128 * bit_of b7 + 64 * bit_of b6 + 32 * bit_of b5 + 16 * bit_of b4
      + 8 * bit_of b3 + 4 * bit_of b2 + 2 * bit_of b1 + bit_of b0
  | _ => 0
  end.

(** The Byte Sampler in the words of the specification. *)
Inductive ByteSample (GPIO : Z) (w : World) : Z -> World -> Prop :=
| BS_byte (bits : list level) (w' : World) :
    List.length bits = 8%nat ->
    BitCells GPIO w bits w' ->
    ByteSample GPIO w (msb_first bits) w'
| BS_abort (bits : list level) (w1 w' : World) :
    (List.length bits < 8)%nat ->
    BitCells GPIO w bits w1 ->
    TimedWait GPIO w1 false w' ->
    ByteSample GPIO w 0 w'.

(** Protocol Sessions started so far: one per request for the FIFO
    policy. *)
Definition is_elevation (e : event) : bool :=
  match e with
  | EvSched SCHED_FIFO _ => true
  | _ => false
  end.

Definition sessions (w : World) : nat :=
  List.length (filter is_elevation (log w)).

(** Cooldowns taken so far: one per [delay(2000)]. *)
Definition is_cooldown (e : event) : bool :=
  match e with
  | EvDelay ms => ms =? 2000
  | _ => false
  end.

Definition cooldowns (w : World) : nat :=
  List.length (filter is_cooldown (log w)).

(** [w'] follows [w] with the same scheduling state, no session started
    and no cooldown taken in between. *)
Record quiet (w w' : World) : Prop := mkQuiet {
  quiet_policy : policy w' = policy w;
  quiet_priority : sched_priority w' = sched_priority w;
  quiet_sessions : sessions w' = sessions w;
  quiet_cooldowns : cooldowns w' = cooldowns w;
  quiet_clock : clock w' = clock w;
  quiet_status : wiringPi_status w' = wiringPi_status w;
  quiet_privileged : privileged w' = privileged w
}.

(** lines 169-177: what one iteration of the byte loop stores. *)
Definition store_byte (st : queryState) (byte : nat) (b : Z) : queryState :=
  let rb := array_set (retrievedBytes st) byte b in
  if (byte <? 4)%nat then
    mkQueryState rb
      (array_set (results st) byte (array_get rb byte))
      (to_uint8 (queryChecksum st + array_get rb byte))
  else mkQueryState rb (results st) (queryChecksum st).

(** The world in which [querySensor] waits for the acknowledgement: the
    FIFO policy requested, the starting time read, the wake sequence
    driven (lines 143-160). *)
Definition awake (GPIO : Z) (w : World) : World :=
  let w := with_event (scheduled w SCHED_FIFO (fifo_priority_max w))
                      (EvSched SCHED_FIFO (fifo_priority_max w)) in
  let w := with_clock w (S (nclock w)) in
  fold_left with_event
    [EvPinMode GPIO OUTPUT; EvDigitalWrite GPIO LOW; EvDelay 10;
     EvDigitalWrite GPIO HIGH; EvDelayMicroseconds 40; EvPinMode GPIO INPUT] w.

(** The world [querySensor] returns in once the five bytes are in: the
    final time read and the default policy requested (lines 184-190). *)
Definition finished (w : World) : World :=
  with_event (with_sched (with_clock w (S (nclock w))) SCHED_OTHER 0)
             (EvSched SCHED_OTHER 0).

(** lines 199-204 *)
Definition verdict (took : timeval) (st : queryState) : bool :=
  if negb (tv_sec took =? 0) || (16000 <? tv_usec took) then FALSE
  else Z.land (queryChecksum st) 255 =? array_get (retrievedBytes st) 4.

(** The time a session took, from the clock read when it starts in [w] to
    the clock read when the byte loop has ended in [w2]. *)
Definition elapsed (w w2 : World) : timeval :=
  timersub (clock w2 (nclock w2)) (clock w (nclock w)).

(** The session started in [w] gets its acknowledgement and its five
    bytes, and stands in [w2] before the elapsed-time check. *)
Definition reachesTimingCheck (fuel : nat) (GPIO : Z) (results0 : list Z)
  (w : World) (st : queryState) (w2 : World) : Prop :=
  exists w1,
    sensorLowHighWait fuel GPIO (awake GPIO w) = Some (true, w1) /\
    retrieveBytes 5 0 fuel GPIO (mkQueryState (repeat 0 5) results0 0) w1
    = Some (st, w2).

(** line 247: the cooldown before the next attempt. *)
Definition cooled (w : World) : World := with_event w (EvDelay 2000).

(** One attempt that does not end the loop: the session fails, or it
    succeeds with values outside the documented ranges; the cooldown
    follows. *)
Definition rejected (fuel : nat) (GPIO : Z) (w w' : World) : Prop :=
  exists ok data w1,
    querySensor fuel GPIO (repeat 0 4) w = Some ((ok, data), w1) /\
    (ok = false \/ withinCapabilities (parseReading data) = false) /\
    w' = cooled w1.

(** [n] such attempts in a row. *)
Inductive rejections (fuel : nat) (GPIO : Z) : nat -> World -> World -> Prop :=
| rejections_O (w : World) : rejections fuel GPIO 0 w w
| rejections_S (n : nat) (w w1 w2 : World) :
    rejected fuel GPIO w w1 ->
    rejections fuel GPIO n w1 w2 ->
    rejections fuel GPIO (S n) w w2.

(** The "not available" Measurement. *)
Definition notAvailable (SENSOR_NA : Q) : sensorOutput :=
  mkSensorOutput SENSOR_NA SENSOR_NA.

(** A sensor that answers the payload of the specification's scenario,
    read with a clock tick of 100 microseconds per call. *)
Definition scenario_world : World :=
  scripted_world (sensor_trace [2; 140; 1; 8; 151]) HIGH 100.

(** The same line read by a thread that is slowed down: 200 microseconds
    per clock call. *)
Definition slow_world : World :=
  scripted_world (sensor_trace [2; 140; 1; 8; 151]) HIGH 200.

(** A sensor that sends the sign bit: temperature bytes 0x81 0x08. *)
Definition freezing_world : World :=
  scripted_world (sensor_trace [2; 140; 129; 8; 23]) HIGH 100.

(** No sensor on the line: it rests HIGH. *)
Definition silent_world : World := scripted_world [] HIGH 100.

(** The same silent line with a clock that never stops ticking. *)
Definition ticking_world : World :=
  mkWorld (scripted_input [] HIGH) 0 (ticking_clock 1700000000 0 100) 0
          99 SCHED_OTHER 0 0 [] true 0 [].

(** *** The fields of [struct sensorOutput] as C doubles

    [n / 10.0] in binary64, for the integer [n] that two bytes form, and
    the tests the source makes on it, next to the same tests on the exact
    quotient. *)
Definition tenth64 (n : Z) : PrimFloat.float :=
  PrimFloat.div (PrimFloat.of_uint63 (Uint63.of_Z n)) 10%float.

Definition negated64 (x : PrimFloat.float) : PrimFloat.float :=
  PrimFloat.mul x (-1)%float.

Definition tenth (n : Z) : Q := (inject_Z n / inject_Z 10)%Q.

Definition same_tests (x : PrimFloat.float) (q : Q) : bool :=
  Bool.eqb (PrimFloat.leb (-40)%float x) (Qle_bool SENSOR_TMP_MIN q)
  && Bool.eqb (PrimFloat.leb x 80%float) (Qle_bool q SENSOR_TMP_MAX)
  && Bool.eqb (PrimFloat.leb 0%float x) (Qle_bool SENSOR_HUM_MIN q)
  && Bool.eqb (PrimFloat.leb x 100%float) (Qle_bool q SENSOR_HUM_MAX).

Definition binary64_agrees (hi lo : Z) : bool :=
  let n := hi * 256 + lo in
  same_tests (tenth64 n) (tenth n)
  && same_tests (negated64 (tenth64 n)) (tenth n * inject_Z (-1))%Q.

Definition clock_advances (w : World) : Prop :=
  forall (t : timeval) (n : nat),
    exists m, (n <= m)%nat /\ timercmp_gt (clock w m) t = true.

(** ** Vocabulary for the further properties *)

(** The next reads of the line are those of [script], in order. *)
Definition reads_next (GPIO : Z) (w : World) (script : list level) : Prop :=
  forall i, (i < List.length script)%nat ->
    input w GPIO (nreads w + i) = nth i script LOW.

Definition level_of_bit (b : bool) : level := if b then HIGH else LOW.

(** When the reads of [n] such bit cells are made, the first cell starting
    with [d] microseconds of delay behind it: per cell two reads by the
    wait and, 30 microseconds later, the sample.  Newest first. *)
Fixpoint cell_samples (d : Z) (n : nat) : list Z :=
  match n with
  | O => []
  | S n' => cell_samples (d + 30) n' ++ [d + 30; d; d]
  end.

(** The world after [n] bit cells that each found the line LOW, then HIGH,
    at the first poll of the two loops: three reads of the line, two of the
    clock and one 30 microsecond delay per cell. *)
Definition after_cells (w : World) (n : nat) : World :=
  mkWorld (input w) (nreads w + 3 * n) (clock w) (nclock w + 2 * n)
          (fifo_priority_max w) (policy w) (sched_priority w)
          (wiringPi_status w) (repeat (EvDelayMicroseconds 30) n ++ log w)
          (privileged w) (delayed w + 30 * Z.of_nat n)
          (cell_samples (delayed w) n ++ sampled_at w).

(** What the byte loop of [querySensor] has stored once it has retrieved
    the bytes of [payload], starting at index [byte]. *)
Fixpoint store_all (st : queryState) (byte : nat) (payload : list Z)
  : queryState :=
  match payload with
  | [] => st
  | b :: payload' => store_all (store_byte st byte b) (S byte) payload'
  end.

(** The world in which a session stands before its elapsed-time check when
    the acknowledgement and all forty bit cells were found in place. *)
Definition session_read (GPIO : Z) (w : World) : World :=
  after_cells (advance (awake GPIO w) 2 2) 40.

(** The same world for a thread without the privilege that a real-time
    policy needs: [sched_setscheduler] then fails for SCHED_FIFO. *)
Definition unprivileged (w : World) : World :=
  mkWorld (input w) (nreads w) (clock w) (nclock w) (fifo_priority_max w)
          (policy w) (sched_priority w) (wiringPi_status w) (log w)
          false (delayed w) (sampled_at w).

(** A world in which wiringPi cannot be set up. *)
Definition uninitialised_world : World :=
  mkWorld (scripted_input [] HIGH) 0
          (recorded_clock 256 (ticking_clock 1700000000 0 100)) 0
          99 SCHED_OTHER 0 (-1) [] true 0 [].

(** The clock of a thread that reads it every 50 microseconds once the
    10 ms and 40 microsecond wake sequence is over. *)
Definition paced_clock : nat -> timeval :=
  fun k =>
    match k with
    | O => mkTimeval 1700000000 0
    | S k' => mkTimeval 1700000000 (10040 + 50 * Z.of_nat k')
    end.

(** A sensor that acknowledges the wake sequence and then leaves the line
    HIGH. *)
Definition dropout_world : World :=
  mkWorld (scripted_input [LOW; HIGH] HIGH) 0 (recorded_clock 128 paced_clock) 0
          99 SCHED_OTHER 0 0 [] true 0 [].

(** [n] transition waits in a row that fail. *)
Inductive failedWaits (fuel : nat) (GPIO : Z) : nat -> World -> World -> Prop :=
| failedWaits_O (w : World) : failedWaits fuel GPIO 0 w w
| failedWaits_S (n : nat) (w w1 w2 : World) :
    sensorLowHighWait fuel GPIO w = Some (FALSE, w1) ->
    failedWaits fuel GPIO n w1 w2 ->
    failedWaits fuel GPIO (S n) w w2.

(** Successive clock readings strictly increase. *)
Definition clock_ticks (w : World) : Prop :=
  forall k, microseconds (clock w k) < microseconds (clock w (S k)).

(** The most recent [pinMode] call on [GPIO] in a log. *)
Fixpoint last_pin_mode (GPIO : Z) (l : list event) : option pin_mode :=
  match l with
  | [] => None
  | EvPinMode pin m :: l' =>
      if pin =? GPIO then Some m else last_pin_mode GPIO l'
  | _ :: l' => last_pin_mode GPIO l'
  end.

(** The driver calls that open a session, newest first (lines 143-160). *)
Definition session_calls (GPIO prio : Z) : list event :=
  [EvPinMode GPIO INPUT; EvDelayMicroseconds 40; EvDigitalWrite GPIO HIGH;
   EvDelay 10; EvDigitalWrite GPIO LOW; EvPinMode GPIO OUTPUT;
   EvSched SCHED_FIFO prio].

(** * Properties *)

(** ** The monad and the world *)

Lemma level_eqb_eq (a b : level) : level_eqb a b = true <-> a = b.
Proof. destruct a, b; simpl; split; congruence. Qed.

Lemma level_eqb_neq (a b : level) : level_eqb a b = false <-> a <> b.
Proof. destruct a, b; simpl; split; congruence. Qed.

Lemma advance_advance (w : World) (a b c d : nat) :
  advance (advance w a b) c d = advance w (a + c) (b + d).
Proof.
  unfold advance; simpl.
  rewrite app_assoc, <- repeat_app, (Nat.add_comm c a).
  f_equal; lia.
Qed.

Lemma polled_level_advance GPIO w r c i :
  polled_level GPIO (advance w r c) i = polled_level GPIO w (r + i).
Proof. unfold polled_level; simpl; f_equal; lia. Qed.

Lemma polled_time_advance w r c i :
  polled_time (advance w r c) i = polled_time w (c + i).
Proof. unfold polled_time; simpl; f_equal; lia. Qed.

Lemma polled_level_0 GPIO w : polled_level GPIO w 0 = input w GPIO (nreads w).
Proof. unfold polled_level; f_equal; lia. Qed.

Lemma polled_time_0 w : polled_time w 0 = clock w (nclock w).
Proof. unfold polled_time; f_equal; lia. Qed.

(** ** sys/time.h on normalised values *)

Lemma timeradd_microseconds (a b : timeval) :
  microseconds (timeradd a b) = microseconds a + microseconds b.
Proof.
  unfold timeradd, microseconds.
  destruct (1000000 <=? tv_usec a + tv_usec b); simpl; lia.
Qed.

Lemma timeradd_normalised (a b : timeval) :
  normalised a -> normalised b -> normalised (timeradd a b).
Proof.
  unfold timeradd, normalised. intros Ha Hb.
  destruct (1000000 <=? tv_usec a + tv_usec b) eqn:E; simpl.
  - apply Z.leb_le in E. lia.
  - apply Z.leb_gt in E. lia.
Qed.

Lemma timercmp_gt_microseconds (a b : timeval) :
  normalised a -> normalised b ->
  timercmp_gt a b = (microseconds b <? microseconds a).
Proof.
  unfold timercmp_gt, normalised, microseconds. intros Ha Hb.
  destruct (tv_sec a =? tv_sec b) eqn:E.
  - apply Z.eqb_eq in E. rewrite E.
    destruct (tv_usec b <? tv_usec a) eqn:L; symmetry.
    + apply Z.ltb_lt in L. apply Z.ltb_lt. lia.
    + apply Z.ltb_ge in L. apply Z.ltb_ge. lia.
  - apply Z.eqb_neq in E.
    destruct (tv_sec b <? tv_sec a) eqn:L; symmetry.
    + apply Z.ltb_lt in L. apply Z.ltb_lt. nia.
    + apply Z.ltb_ge in L. apply Z.ltb_ge. nia.
Qed.




(** The deadline test of the busy-wait loops, in microseconds. *)
Lemma deadline_passed (now start : timeval) :
  normalised now -> normalised start ->
  timercmp_gt now (timeradd start (mkTimeval (tv_sec timerclear) 1000))
  = (microseconds start + 1000 <? microseconds now).
Proof.
  intros Hn Hs. rewrite timercmp_gt_microseconds; auto.
  - rewrite timeradd_microseconds. reflexivity.
  - apply timeradd_normalised; auto. unfold normalised; simpl; lia.
Qed.

(** ** The busy-wait loops *)

Lemma pollWhile_S fuel GPIO lvl timeUp w :
  pollWhile (S fuel) GPIO lvl timeUp w =
  if level_eqb (input w GPIO (nreads w)) lvl then
    if timercmp_gt (clock w (nclock w)) timeUp then Some (false, advance w 1 1)
    else pollWhile fuel GPIO lvl timeUp (advance w 1 1)
  else Some (true, advance w 1 0).
Proof.
  assert (E11 : with_clock (with_sample (with_reads w (S (nreads w))))
                           (S (nclock w))
                = advance w 1 1).
  { unfold advance, with_clock, with_sample, with_reads; simpl; f_equal; lia. }
  assert (E10 : with_sample (with_reads w (S (nreads w))) = advance w 1 0).
  { unfold advance, with_sample, with_reads; simpl; f_equal; lia. }
  cbn [pollWhile]. unfold bind, digitalRead, gettimeofday, ret.
  destruct (level_eqb (input w GPIO (nreads w)) lvl).
  - change (clock (with_sample (with_reads w (S (nreads w))))
                  (nclock (with_sample (with_reads w (S (nreads w))))))
      with (clock w (nclock w)).
    change (nclock (with_sample (with_reads w (S (nreads w))))) with (nclock w).
    destruct (timercmp_gt (clock w (nclock w)) timeUp); rewrite E11; reflexivity.
  - rewrite E10. reflexivity.
Qed.

Lemma waiting_S GPIO lvl start budget w k :
  waiting GPIO lvl start budget w (S k) <->
  input w GPIO (nreads w) = lvl /\
  microseconds (clock w (nclock w)) <= microseconds start + budget /\
  waiting GPIO lvl start budget (advance w 1 1) k.
Proof.
  unfold waiting. split.
  - intros H. rewrite <- polled_level_0, <- polled_time_0.
    destruct (H 0%nat) as [H0 H1]; [lia|]. repeat split; auto.
    + rewrite polled_level_advance. apply H. lia.
    + rewrite polled_time_advance. apply H. lia.
  - intros (H0 & H1 & H) [|i] Hi.
    + rewrite polled_level_0, polled_time_0. auto.
    + specialize (H i ltac:(lia)).
      rewrite polled_level_advance, polled_time_advance in H. exact H.
Qed.

Section PollWhile.

Variables (GPIO : Z) (lvl : level) (start : timeval).
Hypothesis start_normalised : normalised start.

Let timeUp : timeval := timeradd start (mkTimeval (tv_sec timerclear) 1000).

Lemma pollWhile_leaves fuel : forall w w',
  normalised_clock w ->
  (pollWhile fuel GPIO lvl timeUp w = Some (true, w') <->
   exists k, (k < fuel)%nat /\ leaves_within GPIO lvl start 1000 w k /\
             w' = advance w (S k) k).
Proof.
  induction fuel as [|fuel IH]; intros w w' Hc.
  - simpl. unfold out_of_fuel. split; [discriminate|].
    intros (k & Hk & _). lia.
  - rewrite pollWhile_S. unfold timeUp at 1.
    rewrite deadline_passed by auto.
    destruct (level_eqb (input w GPIO (nreads w)) lvl) eqn:El.
    + apply level_eqb_eq in El.
      destruct (microseconds start + 1000 <? microseconds (clock w (nclock w))) eqn:Et.
      * apply Z.ltb_lt in Et. split; [discriminate|].
        intros (k & _ & [Hw Hl] & _). destruct k as [|k].
        -- rewrite polled_level_0 in Hl. contradiction.
        -- apply waiting_S in Hw. lia.
      * apply Z.ltb_ge in Et. rewrite IH by exact Hc. split.
        -- intros (k & Hk & [Hw Hl] & ->). exists (S k). split; [lia|]. split.
           ++ split; [apply waiting_S; auto|].
              rewrite polled_level_advance in Hl. exact Hl.
           ++ rewrite advance_advance. f_equal; lia.
        -- intros (k & Hk & [Hw Hl] & ->). destruct k as [|k].
           ++ rewrite polled_level_0 in Hl. contradiction.
           ++ exists k. split; [lia|]. split.
              ** apply waiting_S in Hw. destruct Hw as (_ & _ & Hw).
                 split; [exact Hw|]. rewrite polled_level_advance. exact Hl.
              ** rewrite advance_advance. f_equal; lia.
    + apply level_eqb_neq in El. split.
      * intros E. inversion E; subst. exists 0%nat. split; [lia|]. split; auto.
        split; [intros i Hi; lia|]. rewrite polled_level_0. exact El.
      * intros (k & _ & [Hw Hl] & ->). destruct k as [|k]; [reflexivity|].
        apply waiting_S in Hw. tauto.
Qed.

Lemma pollWhile_overruns fuel : forall w w',
  normalised_clock w ->
  (pollWhile fuel GPIO lvl timeUp w = Some (false, w') <->
   exists k, (k < fuel)%nat /\ overruns GPIO lvl start 1000 w k /\
             w' = advance w (S k) (S k)).
Proof.
  induction fuel as [|fuel IH]; intros w w' Hc.
  - simpl. unfold out_of_fuel. split; [discriminate|].
    intros (k & Hk & _). lia.
  - rewrite pollWhile_S. unfold timeUp at 1.
    rewrite deadline_passed by auto.
    destruct (level_eqb (input w GPIO (nreads w)) lvl) eqn:El.
    + apply level_eqb_eq in El.
      destruct (microseconds start + 1000 <? microseconds (clock w (nclock w))) eqn:Et.
      * apply Z.ltb_lt in Et. split.
        -- intros E. inversion E; subst. exists 0%nat. split; [lia|]. split; auto.
           split; [intros i Hi; lia|].
           rewrite polled_level_0, polled_time_0. auto.
        -- intros (k & _ & (Hw & _ & _) & ->). destruct k as [|k]; [reflexivity|].
           apply waiting_S in Hw. lia.
      * apply Z.ltb_ge in Et. rewrite IH by exact Hc. split.
        -- intros (k & Hk & (Hw & Hl & Ht) & ->). exists (S k).
           split; [lia|]. split.
           ++ split; [apply waiting_S; auto|].
              rewrite polled_level_advance in Hl.
              rewrite polled_time_advance in Ht. auto.
           ++ rewrite advance_advance. f_equal; lia.
        -- intros (k & Hk & (Hw & Hl & Ht) & ->). destruct k as [|k].
           ++ rewrite polled_time_0 in Ht. lia.
           ++ exists k. split; [lia|]. split.
              ** apply waiting_S in Hw. destruct Hw as (_ & _ & Hw).
                 split; [exact Hw|].
                 rewrite polled_level_advance, polled_time_advance. auto.
              ** rewrite advance_advance. f_equal; lia.
    + apply level_eqb_neq in El. split; [discriminate|].
      intros (k & _ & (Hw & Hl & _) & _). destruct k as [|k].
      * rewrite polled_level_0 in Hl. contradiction.
      * apply waiting_S in Hw. tauto.
Qed.

End PollWhile.

Lemma pollWhile_fuel_mono GPIO lvl timeUp fuel : forall fuel' w r,
  pollWhile fuel GPIO lvl timeUp w = Some r -> (fuel <= fuel')%nat ->
  pollWhile fuel' GPIO lvl timeUp w = Some r.
Proof.
  induction fuel as [|fuel IH]; intros fuel' w r H Hle.
  - discriminate H.
  - destruct fuel' as [|fuel']; [lia|].
    rewrite pollWhile_S in *.
    destruct (level_eqb (input w GPIO (nreads w)) lvl); [|exact H].
    destruct (timercmp_gt (clock w (nclock w)) timeUp); [exact H|].
    apply IH; [exact H | lia].
Qed.

(** ** sensorLowHighWait *)

Lemma setTimer_eq w :
  setTimer w = Some (one_ms_after (clock w (nclock w)), advance w 0 1).
Proof.
  unfold setTimer, bind, gettimeofday, ret, one_ms_after, advance, with_clock.
  simpl. repeat f_equal; lia.
Qed.

Lemma sensorLowHighWait_unfold fuel GPIO w :
  sensorLowHighWait fuel GPIO w =
  match pollWhile fuel GPIO HIGH (one_ms_after (clock w (nclock w)))
                  (advance w 0 1) with
  | None => None
  | Some (false, w1) => Some (false, w1)
  | Some (true, w1) =>
      match pollWhile fuel GPIO LOW (one_ms_after (clock w1 (nclock w1)))
                      (advance w1 0 1) with
      | None => None
      | Some (false, w2) => Some (false, w2)
      | Some (true, w2) => Some (true, w2)
      end
  end.
Proof.
  unfold sensorLowHighWait. unfold bind at 1. rewrite setTimer_eq.
  unfold bind at 1.
  destruct (pollWhile fuel GPIO HIGH _ (advance w 0 1)) as [[[|] w1]|];
    try reflexivity.
  cbn [negb]. unfold bind at 1. rewrite setTimer_eq.
  unfold bind at 1. cbv beta.
  destruct (pollWhile fuel GPIO LOW _ (advance w1 0 1)) as [[[|] w2]|];
    reflexivity.
Qed.

Lemma sensorLowHighWait_fuel_mono GPIO fuel fuel' w r :
  sensorLowHighWait fuel GPIO w = Some r -> (fuel <= fuel')%nat ->
  sensorLowHighWait fuel' GPIO w = Some r.
Proof.
  intros H Hle. rewrite sensorLowHighWait_unfold in *.
  destruct (pollWhile fuel GPIO HIGH _ _) as [[b1 w1]|] eqn:E1; [|discriminate].
  rewrite (pollWhile_fuel_mono _ _ _ _ _ _ _ E1 Hle).
  destruct b1; [|exact H].
  destruct (pollWhile fuel GPIO LOW _ _) as [[b2 w2]|] eqn:E2; [|discriminate].
  rewrite (pollWhile_fuel_mono _ _ _ _ _ _ _ E2 Hle). exact H.
Qed.

(** One loop with its timer is one [SubWait]. *)
Lemma pollWhile_SubWait GPIO lvl fuel w b w' :
  normalised_clock w ->
  pollWhile fuel GPIO lvl (one_ms_after (clock w (nclock w))) (advance w 0 1)
  = Some (b, w') ->
  SubWait GPIO lvl w b w'.
Proof.
  intros Hc H. unfold one_ms_after in H. destruct b.
  - apply (pollWhile_leaves GPIO lvl _ (Hc _)) in H; [|exact Hc].
    destruct H as (k & _ & L & ->). rewrite advance_advance.
    exact (SW_left GPIO lvl w k L).
  - apply (pollWhile_overruns GPIO lvl _ (Hc _)) in H; [|exact Hc].
    destruct H as (k & _ & L & ->). rewrite advance_advance.
    exact (SW_overrun GPIO lvl w k L).
Qed.

Lemma SubWait_pollWhile GPIO lvl w b w' :
  normalised_clock w ->
  SubWait GPIO lvl w b w' ->
  exists fuel,
    pollWhile fuel GPIO lvl (one_ms_after (clock w (nclock w))) (advance w 0 1)
    = Some (b, w').
Proof.
  intros Hc H. destruct H as [k L | k L]; exists (S k); unfold one_ms_after.
  - apply (pollWhile_leaves GPIO lvl _ (Hc _)); [exact Hc|].
    exists k. split; [lia|]. split; [exact L|].
    rewrite advance_advance. reflexivity.
  - apply (pollWhile_overruns GPIO lvl _ (Hc _)); [exact Hc|].
    exists k. split; [lia|]. split; [exact L|].
    rewrite advance_advance. reflexivity.
Qed.

Lemma SubWait_advance GPIO lvl w b w' :
  SubWait GPIO lvl w b w' -> exists r c, w' = advance w r c.
Proof. intros H. destruct H; eauto. Qed.

(** With [fuel] polls allowed per loop, the code computes [TimedWait]. *)
Lemma sensorLowHighWait_sound GPIO fuel w b w' :
  normalised_clock w ->
  sensorLowHighWait fuel GPIO w = Some (b, w') -> TimedWait GPIO w b w'.
Proof.
  intros Hc H. rewrite sensorLowHighWait_unfold in H.
  destruct (pollWhile fuel GPIO HIGH _ _) as [[[|] w1]|] eqn:E1;
    [| |discriminate]; apply pollWhile_SubWait in E1; try exact Hc.
  - destruct (SubWait_advance _ _ _ _ _ E1) as (r & c & Hw1).
    assert (Hc1 : normalised_clock w1) by (subst w1; exact Hc).
    destruct (pollWhile fuel GPIO LOW _ _) as [[b2 w2]|] eqn:E2;
      [|discriminate].
    apply pollWhile_SubWait in E2; [|exact Hc1].
    replace b with b2 by (destruct b2; congruence).
    replace w' with w2 by (destruct b2; congruence).
    exact (TW_both GPIO w w1 w2 b2 E1 E2).
  - inversion H; subst. exact (TW_first_overrun GPIO w w' E1).
Qed.

Lemma sensorLowHighWait_complete GPIO w b w' :
  normalised_clock w ->
  TimedWait GPIO w b w' ->
  exists fuel, sensorLowHighWait fuel GPIO w = Some (b, w').
Proof.
  intros Hc H. destruct H as [w1 w2 b S1 S2 | w1 S1].
  - destruct (SubWait_advance _ _ _ _ _ S1) as (r & c & Hw1).
    assert (Hc1 : normalised_clock w1) by (subst w1; exact Hc).
    destruct (SubWait_pollWhile _ _ _ _ _ Hc S1) as [f1 E1].
    destruct (SubWait_pollWhile _ _ _ _ _ Hc1 S2) as [f2 E2].
    exists (f1 + f2)%nat. rewrite sensorLowHighWait_unfold.
    rewrite (pollWhile_fuel_mono _ _ _ _ (f1 + f2)%nat _ _ E1) by lia.
    rewrite (pollWhile_fuel_mono _ _ _ _ (f1 + f2)%nat _ _ E2) by lia.
    destruct b; reflexivity.
  - destruct (SubWait_pollWhile _ _ _ _ _ Hc S1) as [f1 E1].
    exists f1. rewrite sensorLowHighWait_unfold, E1. reflexivity.
Qed.

(** [TimedWait] has at most one outcome in a given world. *)
Lemma TimedWait_deterministic GPIO w b1 w1 b2 w2 :
  normalised_clock w ->
  TimedWait GPIO w b1 w1 -> TimedWait GPIO w b2 w2 -> b1 = b2 /\ w1 = w2.
Proof.
  intros Hc H1 H2.
  apply sensorLowHighWait_complete in H1; [|exact Hc].
  apply sensorLowHighWait_complete in H2; [|exact Hc].
  destruct H1 as [f1 H1], H2 as [f2 H2].
  apply sensorLowHighWait_fuel_mono with (fuel' := (f1 + f2)%nat) in H1; [|lia].
  apply sensorLowHighWait_fuel_mono with (fuel' := (f1 + f2)%nat) in H2; [|lia].
  rewrite H1 in H2. inversion H2. auto.
Qed.

(** ** retrieveByte *)

Lemma TimedWait_advance GPIO w b w' :
  TimedWait GPIO w b w' -> exists r c, w' = advance w r c.
Proof.
  intros H. destruct H as [w1 w2 b S1 S2 | w1 S1].
  - apply SubWait_advance in S1, S2.
    destruct S1 as (r1 & c1 & ->), S2 as (r2 & c2 & ->).
    rewrite advance_advance. eauto.
  - apply SubWait_advance in S1. exact S1.
Qed.

Lemma TimedWait_normalised_clock GPIO w b w' :
  TimedWait GPIO w b w' -> normalised_clock w -> normalised_clock w'.
Proof.
  intros H Hc. destruct (TimedWait_advance _ _ _ _ H) as (r & c & ->).
  exact Hc.
Qed.

Lemma sample_after_normalised_clock GPIO w :
  normalised_clock w -> normalised_clock (snd (sample_after GPIO w)).
Proof. exact (fun H => H). Qed.

Lemma BitCells_normalised_clock GPIO w bits w' :
  BitCells GPIO w bits w' -> normalised_clock w -> normalised_clock w'.
Proof.
  induction 1; intros Hc; auto.
  apply IHBitCells, sample_after_normalised_clock.
  eapply TimedWait_normalised_clock; eauto.
Qed.

Lemma retrieveBits_S remaining fuel GPIO result w :
  retrieveBits (S remaining) fuel GPIO result w =
  match sensorLowHighWait fuel GPIO w with
  | None => None
  | Some (false, w1) => Some (0, w1)
  | Some (true, w1) =>
      retrieveBits remaining fuel GPIO
        (shift_bit result (fst (sample_after GPIO w1)))
        (snd (sample_after GPIO w1))
  end.
Proof.
  cbn [retrieveBits]. unfold bind at 1.
  destruct (sensorLowHighWait fuel GPIO w) as [[[|] w1]|]; try reflexivity.
  cbn [negb]. unfold bind, delayMicroseconds, emit, digitalRead, sample_after.
  cbn [fst snd]. unfold shift_bit.
  replace (with_sample
             (with_reads (with_event w1 (EvDelayMicroseconds 30))
                (S (nreads (with_event w1 (EvDelayMicroseconds 30))))))
    with (advance (with_event w1 (EvDelayMicroseconds 30)) 1 0).
  - reflexivity.
  - unfold advance, with_sample, with_reads; simpl; f_equal; lia.
Qed.

Lemma retrieveBits_fuel_mono GPIO fuel fuel' remaining : forall result w r,
  retrieveBits remaining fuel GPIO result w = Some r -> (fuel <= fuel')%nat ->
  retrieveBits remaining fuel' GPIO result w = Some r.
Proof.
  induction remaining as [|n IH]; intros result w r H Hle.
  - exact H.
  - rewrite retrieveBits_S in *.
    destruct (sensorLowHighWait fuel GPIO w) as [[b w1]|] eqn:E; [|discriminate].
    rewrite (sensorLowHighWait_fuel_mono _ _ _ _ _ E Hle).
    destruct b; [apply IH; assumption | exact H].
Qed.

Lemma retrieveBits_sound GPIO fuel remaining : forall result w v w',
  normalised_clock w ->
  retrieveBits remaining fuel GPIO result w = Some (v, w') ->
  (exists bits, List.length bits = remaining /\ BitCells GPIO w bits w' /\
                v = shift_in result bits)
  \/ (exists bits w1, (List.length bits < remaining)%nat /\
                      BitCells GPIO w bits w1 /\
                      TimedWait GPIO w1 false w' /\ v = 0).
Proof.
  induction remaining as [|n IH]; intros result w v w' Hc H.
  - inversion H; subst. left. exists []. repeat split. constructor.
  - rewrite retrieveBits_S in H.
    destruct (sensorLowHighWait fuel GPIO w) as [[[|] w1]|] eqn:E;
      [| |discriminate].
    + apply sensorLowHighWait_sound in E; [|exact Hc].
      apply IH in H.
      2:{ apply sample_after_normalised_clock.
          eapply TimedWait_normalised_clock; eauto. }
      destruct H as [(bits & Hl & Hb & ->) | (bits & w2 & Hl & Hb & Hf & ->)].
      * left. exists (fst (sample_after GPIO w1) :: bits).
        split; [simpl; lia|]. split; [econstructor; eauto | reflexivity].
      * right. exists (fst (sample_after GPIO w1) :: bits), w2.
        split; [simpl; lia|]. split; [econstructor; eauto | auto].
    + apply sensorLowHighWait_sound in E; [|exact Hc].
      inversion H; subst. right. exists [], w. split; [simpl; lia|].
      split; [constructor | auto].
Qed.

Lemma retrieveBits_complete GPIO w bits w' :
  normalised_clock w ->
  BitCells GPIO w bits w' ->
  exists fuel, forall result,
    retrieveBits (List.length bits) fuel GPIO result w
    = Some (shift_in result bits, w').
Proof.
  intros Hc H. induction H as [w | w w1 bits w' Hw Hb IH].
  - exists 0%nat. reflexivity.
  - destruct IH as [f2 IH].
    { apply sample_after_normalised_clock.
      eapply TimedWait_normalised_clock; eauto. }
    destruct (sensorLowHighWait_complete _ _ _ _ Hc Hw) as [f1 E].
    exists (f1 + f2)%nat. intros result.
    cbn [List.length]. rewrite retrieveBits_S.
    rewrite (sensorLowHighWait_fuel_mono _ _ (f1 + f2)%nat _ _ E) by lia.
    apply retrieveBits_fuel_mono with (fuel := f2); [|lia].
    apply IH.
Qed.

Lemma retrieveBits_abort GPIO w bits w1 w' : forall extra,
  normalised_clock w ->
  BitCells GPIO w bits w1 ->
  TimedWait GPIO w1 false w' ->
  exists fuel, forall result,
    retrieveBits (List.length bits + S extra) fuel GPIO result w = Some (0, w').
Proof.
  intros extra Hc H Hf. induction H as [w | w w1 bits w2 Hw Hb IH].
  - destruct (sensorLowHighWait_complete _ _ _ _ Hc Hf) as [f E].
    exists f. intros result. cbn [List.length Nat.add].
    rewrite retrieveBits_S, E. reflexivity.
  - destruct IH as [f2 IH]; auto.
    { apply sample_after_normalised_clock.
      eapply TimedWait_normalised_clock; eauto. }
    destruct (sensorLowHighWait_complete _ _ _ _ Hc Hw) as [f1 E].
    exists (f1 + f2)%nat. intros result.
    cbn [List.length Nat.add]. rewrite retrieveBits_S.
    rewrite (sensorLowHighWait_fuel_mono _ _ (f1 + f2)%nat _ _ E) by lia.
    apply retrieveBits_fuel_mono with (fuel := f2); [|lia].
    apply IH.
Qed.

Lemma shift_in_msb_first (bits : list level) :
  List.length bits = 8%nat -> shift_in 0 bits = msb_first bits.
Proof.
  intros H.
  do 8 (destruct bits as [|? bits]; [discriminate H|]).
  destruct bits; [|discriminate H].
  repeat match goal with l : level |- _ => destruct l end; reflexivity.
Qed.

Lemma to_uint8_range (x : Z) : 0 <= to_uint8 x < 256.
Proof. unfold to_uint8. apply Z.mod_pos_bound. lia. Qed.

Lemma shift_bit_range (result : Z) (l : level) : 0 <= shift_bit result l < 256.
Proof.
  unfold shift_bit. destruct (level_eqb l HIGH); apply to_uint8_range.
Qed.

Lemma retrieveBits_range GPIO fuel remaining : forall result w v w',
  0 <= result < 256 ->
  retrieveBits remaining fuel GPIO result w = Some (v, w') -> 0 <= v < 256.
Proof.
  induction remaining as [|n IH]; intros result w v w' Hr H.
  - inversion H; subst. exact Hr.
  - rewrite retrieveBits_S in H.
    destruct (sensorLowHighWait fuel GPIO w) as [[[|] w1]|]; [| |discriminate].
    + eapply IH; [|exact H]. apply shift_bit_range.
    + inversion H; subst. lia.
Qed.

Lemma retrieveByte_range GPIO fuel w v w' :
  retrieveByte fuel GPIO w = Some (v, w') -> 0 <= v < 256.
Proof. apply retrieveBits_range. lia. Qed.

(** ** What a call leaves untouched *)

Lemma quiet_refl w : quiet w w.
Proof. constructor; reflexivity. Qed.

Lemma quiet_trans w1 w2 w3 : quiet w1 w2 -> quiet w2 w3 -> quiet w1 w3.
Proof. intros [] []. constructor; congruence. Qed.

Lemma quiet_advance w r c : quiet w (advance w r c).
Proof. constructor; reflexivity. Qed.

Lemma pollWhile_advance GPIO lvl timeUp fuel : forall w b w',
  pollWhile fuel GPIO lvl timeUp w = Some (b, w') ->
  exists r c, w' = advance w r c.
Proof.
  induction fuel as [|fuel IH]; intros w b w' H; [discriminate H|].
  rewrite pollWhile_S in H.
  destruct (level_eqb (input w GPIO (nreads w)) lvl).
  - destruct (timercmp_gt (clock w (nclock w)) timeUp).
    + inversion H; eauto.
    + apply IH in H. destruct H as (r & c & ->).
      rewrite advance_advance. eauto.
  - inversion H; eauto.
Qed.

Lemma sensorLowHighWait_advance GPIO fuel w b w' :
  sensorLowHighWait fuel GPIO w = Some (b, w') ->
  exists r c, w' = advance w r c.
Proof.
  intros H. rewrite sensorLowHighWait_unfold in H.
  destruct (pollWhile fuel GPIO HIGH _ _) as [[b1 w1]|] eqn:E1; [|discriminate].
  apply pollWhile_advance in E1. destruct E1 as (r1 & c1 & ->).
  rewrite advance_advance in *. destruct b1.
  - destruct (pollWhile fuel GPIO LOW _ _) as [[b2 w2]|] eqn:E2; [|discriminate].
    apply pollWhile_advance in E2. destruct E2 as (r2 & c2 & ->).
    rewrite !advance_advance in *. destruct b2; inversion H; eauto.
  - inversion H; eauto.
Qed.

Lemma sensorLowHighWait_quiet GPIO fuel w b w' :
  sensorLowHighWait fuel GPIO w = Some (b, w') -> quiet w w'.
Proof.
  intros H. apply sensorLowHighWait_advance in H. destruct H as (r & c & ->).
  apply quiet_advance.
Qed.

Lemma sample_after_quiet GPIO w : quiet w (snd (sample_after GPIO w)).
Proof. constructor; reflexivity. Qed.

Lemma retrieveBits_quiet GPIO fuel remaining : forall result w v w',
  retrieveBits remaining fuel GPIO result w = Some (v, w') -> quiet w w'.
Proof.
  induction remaining as [|n IH]; intros result w v w' H.
  - inversion H; subst. apply quiet_refl.
  - rewrite retrieveBits_S in H.
    destruct (sensorLowHighWait fuel GPIO w) as [[[|] w1]|] eqn:E;
      [| |discriminate]; apply sensorLowHighWait_quiet in E.
    + apply IH in H. eapply quiet_trans; [exact E|].
      eapply quiet_trans; [apply sample_after_quiet | exact H].
    + inversion H; subst. exact E.
Qed.

(** ** When the line is read *)

Lemma cell_times_length (d : Z) (polls : list nat) :
  List.length (cell_times d polls)
  = (list_sum polls + List.length polls)%nat.
Proof.
  revert d. induction polls as [|r polls IH]; intros d; [reflexivity|].
  change (list_sum (r :: polls)) with (r + list_sum polls)%nat.
  cbn [cell_times List.length].
  rewrite length_app, IH. cbn [List.length]. rewrite repeat_length. lia.
Qed.

(** The newest read of a run of cells is the sample of its last cell. *)
Lemma cell_times_head (d : Z) (polls : list nat) :
  polls <> [] ->
  hd_error (cell_times d polls)
  = Some (d + 30 * Z.of_nat (List.length polls)).
Proof.
  revert d. induction polls as [|r polls IH]; intros d Hne; [contradiction|].
  cbn [cell_times List.length]. destruct polls as [|r' polls].
  - cbn [cell_times app hd_error]. f_equal; lia.
  - specialize (IH (d + 30) ltac:(discriminate)).
    destruct (cell_times (d + 30) (r' :: polls)) as [|t ts] eqn:E;
      [discriminate IH|].
    cbn [app hd_error] in *. rewrite IH. f_equal; lia.
Qed.

(** The sample of a cell is recorded 30 microseconds after the polls of
    its wait. *)
Lemma sample_after_timeline GPIO w r c :
  log (snd (sample_after GPIO (advance w r c)))
  = EvDelayMicroseconds 30 :: log w /\
  delayed (snd (sample_after GPIO (advance w r c))) = delayed w + 30 /\
  sampled_at (snd (sample_after GPIO (advance w r c)))
  = (delayed w + 30) :: repeat (delayed w) r ++ sampled_at w.
Proof. repeat split. Qed.

Lemma retrieveBits_timeline GPIO fuel remaining : forall result w v w',
  retrieveBits remaining fuel GPIO result w = Some (v, w') ->
  exists polls failed,
    (List.length polls <= remaining)%nat /\
    (List.length polls = remaining -> failed = 0%nat) /\
    log w' = repeat (EvDelayMicroseconds 30) (List.length polls) ++ log w /\
    delayed w' = delayed w + 30 * Z.of_nat (List.length polls) /\
    sampled_at w' = repeat (delayed w') failed
                    ++ cell_times (delayed w) polls ++ sampled_at w.
Proof.
  induction remaining as [|n IH]; intros result w v w' H.
  - inversion H; subst. exists [], 0%nat. cbn [List.length].
    repeat split; try reflexivity; lia.
  - rewrite retrieveBits_S in H.
    destruct (sensorLowHighWait fuel GPIO w) as [[[|] w1]|] eqn:E;
      [| |discriminate];
      apply sensorLowHighWait_advance in E; destruct E as (r & c & ->).
    + apply IH in H.
      destruct H as (polls & failed & Hle & Hfull & Hlog & Hd & Hs).
      destruct (sample_after_timeline GPIO w r c) as (Tl & Td & Ts).
      rewrite Tl in Hlog. rewrite Td in Hd, Hs. rewrite Ts in Hs.
      exists (r :: polls), failed. cbn [List.length cell_times].
      split; [lia|]. split; [intros; apply Hfull; lia|].
      split; [|split].
      * rewrite Hlog.
        change (EvDelayMicroseconds 30 :: log w)
          with ([EvDelayMicroseconds 30] ++ log w).
        rewrite app_assoc, <- repeat_cons. reflexivity.
      * rewrite Hd. lia.
      * rewrite Hs, <- !app_assoc. reflexivity.
    + inversion H; subst. exists [], r. cbn [List.length cell_times app].
      split; [lia|]. split; [intros; lia|].
      repeat split. cbn [delayed advance]. lia.
Qed.

(** ** querySensor *)

Lemma retrieveBytes_S remaining byte fuel GPIO st w :
  retrieveBytes (S remaining) byte fuel GPIO st w =
  match retrieveByte fuel GPIO w with
  | None => None
  | Some (b, w1) =>
      retrieveBytes remaining (S byte) fuel GPIO (store_byte st byte b) w1
  end.
Proof.
  cbn [retrieveBytes]. unfold bind at 1.
  destruct (retrieveByte fuel GPIO w) as [[b w1]|]; reflexivity.
Qed.

Lemma retrieveBytes_fuel_mono GPIO fuel fuel' remaining : forall byte st w r,
  retrieveBytes remaining byte fuel GPIO st w = Some r -> (fuel <= fuel')%nat ->
  retrieveBytes remaining byte fuel' GPIO st w = Some r.
Proof.
  induction remaining as [|n IH]; intros byte st w r H Hle.
  - exact H.
  - rewrite retrieveBytes_S in *.
    destruct (retrieveByte fuel GPIO w) as [[b w1]|] eqn:E; [|discriminate].
    unfold retrieveByte in *.
    rewrite (retrieveBits_fuel_mono _ _ _ _ _ _ _ E Hle).
    apply IH; assumption.
Qed.

Lemma retrieveBytes_quiet GPIO fuel remaining : forall byte st w st' w',
  retrieveBytes remaining byte fuel GPIO st w = Some (st', w') -> quiet w w'.
Proof.
  induction remaining as [|n IH]; intros byte st w st' w' H.
  - inversion H; subst. apply quiet_refl.
  - rewrite retrieveBytes_S in H.
    destruct (retrieveByte fuel GPIO w) as [[b w1]|] eqn:E; [|discriminate].
    apply retrieveBits_quiet in E. apply IH in H.
    eapply quiet_trans; eauto.
Qed.

(** The five bytes and what the loop derives from them. *)
Lemma retrieveBytes_payload GPIO fuel results0 w st w' :
  retrieveBytes 5 0 fuel GPIO (mkQueryState (repeat 0 5) results0 0) w
  = Some (st, w') ->
  exists b0 b1 b2 b3 b4,
    retrievedBytes st = [b0; b1; b2; b3; b4] /\
    Forall (fun b => 0 <= b < 256) [b0; b1; b2; b3; b4] /\
    queryChecksum st = (b0 + b1 + b2 + b3) mod 256 /\
    results st =
      array_set (array_set (array_set (array_set results0 0 b0) 1 b1) 2 b2) 3 b3.
Proof.
  intros H.
  rewrite retrieveBytes_S in H.
  destruct (retrieveByte fuel GPIO w) as [[b0 w0]|] eqn:E0; [|discriminate].
  rewrite retrieveBytes_S in H.
  destruct (retrieveByte fuel GPIO w0) as [[b1 w1]|] eqn:E1; [|discriminate].
  rewrite retrieveBytes_S in H.
  destruct (retrieveByte fuel GPIO w1) as [[b2 w2]|] eqn:E2; [|discriminate].
  rewrite retrieveBytes_S in H.
  destruct (retrieveByte fuel GPIO w2) as [[b3 w3]|] eqn:E3; [|discriminate].
  rewrite retrieveBytes_S in H.
  destruct (retrieveByte fuel GPIO w3) as [[b4 w4]|] eqn:E4; [|discriminate].
  apply retrieveByte_range in E0, E1, E2, E3, E4.
  cbn [retrieveBytes ret] in H. inversion H; subst; clear H.
  exists b0, b1, b2, b3, b4. unfold store_byte. cbn.
  split; [reflexivity|]. split; [repeat constructor; lia|].
  split; [|reflexivity].
  unfold to_uint8.
  rewrite (Z.add_mod_idemp_l b0 b1) by lia.
  rewrite (Z.add_mod_idemp_l (b0 + b1) b2) by lia.
  rewrite (Z.add_mod_idemp_l (b0 + b1 + b2) b3) by lia. reflexivity.
Qed.

Lemma finishQuery_eq then_ st w :
  finishQuery then_ st w
  = Some ((verdict (timersub (clock w (nclock w)) then_) st, results st),
          finished w).
Proof.
  unfold finishQuery, verdict, bind, gettimeofday, setDefaultPriority,
    sched_setscheduler, ret, finished.
  destruct (negb (tv_sec (timersub (clock w (nclock w)) then_) =? 0)
            || (16000 <? tv_usec (timersub (clock w (nclock w)) then_)));
    reflexivity.
Qed.

Lemma querySensor_unfold fuel GPIO results0 w :
  querySensor fuel GPIO results0 w =
  match sensorLowHighWait fuel GPIO (awake GPIO w) with
  | None => None
  | Some (false, w1) => Some ((FALSE, results0), w1)
  | Some (true, w1) =>
      match retrieveBytes 5 0 fuel GPIO
              (mkQueryState (repeat 0 5) results0 0) w1 with
      | None => None
      | Some (st, w2) => Some ((verdict (elapsed w w2) st, results st),
                               finished w2)
      end
  end.
Proof.
  unfold querySensor, bind at 1, setMaximumPriority, sched_setscheduler.
  unfold bind at 1, gettimeofday. unfold bind at 1, wakeSensor.
  unfold bind at 1, pinMode, emit. unfold bind at 1, digitalWrite, emit.
  unfold bind at 1, delay, emit. unfold bind at 1, emit.
  unfold bind at 1, delayMicroseconds, emit. unfold bind at 1.
  change (sensorLowHighWait fuel GPIO _)
    with (sensorLowHighWait fuel GPIO (awake GPIO w)).
  destruct (sensorLowHighWait fuel GPIO (awake GPIO w)) as [[[|] w1]|];
    try reflexivity.
  cbn [negb]. unfold bind at 1.
  destruct (retrieveBytes 5 0 fuel GPIO _ w1) as [[st w2]|]; [|reflexivity].
  rewrite finishQuery_eq. reflexivity.
Qed.

Lemma awake_facts GPIO w :
  policy (awake GPIO w) = (if privileged w then SCHED_FIFO else policy w) /\
  sessions (awake GPIO w) = S (sessions w) /\
  cooldowns (awake GPIO w) = cooldowns w /\
  clock (awake GPIO w) = clock w /\
  wiringPi_status (awake GPIO w) = wiringPi_status w.
Proof. repeat split. Qed.

Lemma awake_privileged GPIO w : privileged (awake GPIO w) = privileged w.
Proof. reflexivity. Qed.

Lemma finished_privileged w : privileged (finished w) = privileged w.
Proof. reflexivity. Qed.

Lemma finished_facts w :
  policy (finished w) = SCHED_OTHER /\
  sched_priority (finished w) = 0 /\
  sessions (finished w) = sessions w /\
  cooldowns (finished w) = cooldowns w /\
  clock (finished w) = clock w /\
  wiringPi_status (finished w) = wiringPi_status w.
Proof. repeat split. Qed.

(** When the acknowledgement wait fails, [querySensor] returns from
    line 164 with the policy that [setMaximumPriority] left: the FIFO
    policy when the thread has the privilege for it, and else the policy
    it came with. *)
Lemma querySensor_ack_failure fuel GPIO results0 w w1 :
  sensorLowHighWait fuel GPIO (awake GPIO w) = Some (false, w1) ->
  querySensor fuel GPIO results0 w = Some ((FALSE, results0), w1) /\
  policy w1 = (if privileged w then SCHED_FIFO else policy w).
Proof.
  intros H. rewrite querySensor_unfold, H. split; [reflexivity|].
  apply sensorLowHighWait_quiet in H. rewrite (quiet_policy _ _ H).
  apply awake_facts.
Qed.

(** On every path through line 190 the default policy is back. *)
Lemma querySensor_after_ack_restores fuel GPIO results0 w st w2 :
  reachesTimingCheck fuel GPIO results0 w st w2 ->
  exists ok, querySensor fuel GPIO results0 w
             = Some ((ok, results st), finished w2) /\
             policy (finished w2) = SCHED_OTHER /\
             sched_priority (finished w2) = 0.
Proof.
  intros (w1 & Hack & Hbytes). rewrite querySensor_unfold, Hack, Hbytes.
  eexists. repeat split.
Qed.

(** What any returning session leaves behind. *)
Lemma querySensor_effect fuel GPIO w ok data w' :
  querySensor fuel GPIO (repeat 0 4) w = Some ((ok, data), w') ->
  sessions w' = S (sessions w) /\
  cooldowns w' = cooldowns w /\
  clock w' = clock w /\
  wiringPi_status w' = wiringPi_status w /\
  (ok = true ->
   exists b0 b1 b2 b3, data = [b0; b1; b2; b3] /\
                       Forall (fun b => 0 <= b < 256) data).
Proof.
  intros H. rewrite querySensor_unfold in H.
  destruct (awake_facts GPIO w) as (_ & As & Ac & Ak & Aw).
  destruct (sensorLowHighWait fuel GPIO (awake GPIO w)) as [[[|] w1]|] eqn:E;
    [| |discriminate]; apply sensorLowHighWait_quiet in E; destruct E.
  - destruct (retrieveBytes 5 0 fuel GPIO _ w1) as [[st w2]|] eqn:E2;
      [|discriminate].
    pose proof (retrieveBytes_quiet _ _ _ _ _ _ _ _ E2) as [].
    apply retrieveBytes_payload in E2.
    destruct E2 as (b0 & b1 & b2 & b3 & b4 & _ & Hr & _ & Hres).
    inversion H; subst; clear H.
    destruct (finished_facts w2) as (_ & _ & Fs & Fc & Fk & Fw).
    repeat split; try congruence.
    intros _. exists b0, b1, b2, b3. rewrite Hres. cbn.
    split; [reflexivity|].
    inversion Hr as [|? ? R0 Hr1]; inversion Hr1 as [|? ? R1 Hr2];
      inversion Hr2 as [|? ? R2 Hr3]; inversion Hr3 as [|? ? R3 Hr4].
    repeat constructor; lia.
  - inversion H; subst; clear H. repeat split; try congruence.
    discriminate.
Qed.

(** ** parseSensorOutput *)

Lemma queryLoop_S NA n fuel GPIO w :
  queryLoop NA (S n) fuel GPIO w =
  match querySensor fuel GPIO (repeat 0 4) w with
  | None => None
  | Some ((ok, data), w1) =>
      if ok && withinCapabilities (parseReading data)
      then Some (parseReading data, w1)
      else queryLoop NA n fuel GPIO (cooled w1)
  end.
Proof.
  cbn [queryLoop]. unfold bind at 1.
  destruct (querySensor fuel GPIO (repeat 0 4) w) as [[[[|] data] w1]|];
    try reflexivity.
  cbn [andb]. destruct (withinCapabilities (parseReading data)); reflexivity.
Qed.

Lemma parseSensorOutput_unfold NA fuel GPIO w :
  parseSensorOutput NA fuel GPIO w =
  if wiringPi_status w =? -1 then
    Some (Exited EXIT_FAILURE,
          with_event w (EvStderr ("wiringPi failed to initialize."
                                    ++ String "010" EmptyString)))
  else
    match queryLoop NA 5 fuel GPIO w with
    | None => None
    | Some (r, w') => Some (Returned r, w')
    end.
Proof.
  unfold parseSensorOutput, bind at 1, wiringPiSetup.
  destruct (wiringPi_status w =? -1); [reflexivity|].
  unfold bind, ret. change (QUERYRETRIES + 1)%nat with 5%nat.
  destruct (queryLoop NA 5 fuel GPIO w) as [[r w']|]; reflexivity.
Qed.

Lemma rejected_effect fuel GPIO w w' :
  rejected fuel GPIO w w' ->
  sessions w' = S (sessions w) /\ cooldowns w' = S (cooldowns w).
Proof.
  intros (ok & data & w1 & Hq & _ & ->).
  apply querySensor_effect in Hq. destruct Hq as (Hs & Hc & _).
  unfold cooled. split.
  - rewrite <- Hs. reflexivity.
  - rewrite <- Hc. reflexivity.
Qed.

Lemma rejections_effect fuel GPIO n w w' :
  rejections fuel GPIO n w w' ->
  sessions w' = (sessions w + n)%nat /\ cooldowns w' = (cooldowns w + n)%nat.
Proof.
  induction 1 as [w | n w w1 w2 Hr _ IH]; [split; lia|].
  apply rejected_effect in Hr. lia.
Qed.

Lemma queryLoop_rejections NA fuel GPIO n w w' :
  rejections fuel GPIO n w w' ->
  forall m, queryLoop NA (n + m) fuel GPIO w = queryLoop NA m fuel GPIO w'.
Proof.
  induction 1 as [w | n w w1 w2 Hr _ IH]; intros m; [reflexivity|].
  destruct Hr as (ok & data & w0 & Hq & Hrej & ->).
  cbn [Nat.add]. rewrite queryLoop_S, Hq.
  replace (ok && withinCapabilities (parseReading data)) with false.
  - apply IH.
  - destruct Hrej as [-> | ->]; [reflexivity | rewrite andb_false_r; reflexivity].
Qed.

(** Every way the retry loop can end. *)
Lemma queryLoop_sound NA fuel GPIO n : forall w r w',
  queryLoop NA n fuel GPIO w = Some (r, w') ->
  (r = notAvailable NA /\ rejections fuel GPIO n w w')
  \/ (exists k data w1,
        (k < n)%nat /\ rejections fuel GPIO k w w1 /\
        querySensor fuel GPIO (repeat 0 4) w1 = Some ((true, data), w') /\
        withinCapabilities (parseReading data) = true /\
        r = parseReading data).
Proof.
  induction n as [|n IH]; intros w r w' H.
  - inversion H; subst. left. split; [reflexivity | constructor].
  - rewrite queryLoop_S in H.
    destruct (querySensor fuel GPIO (repeat 0 4) w) as [[[ok data] w1]|] eqn:Hq;
      [|discriminate].
    destruct (ok && withinCapabilities (parseReading data)) eqn:Hok.
    + apply andb_true_iff in Hok. destruct Hok as [-> Hin].
      inversion H; subst. right. exists 0%nat, data, w.
      split; [lia|]. split; [constructor|]. auto.
    + assert (Hrej : rejected fuel GPIO w (cooled w1)).
      { exists ok, data, w1. split; [exact Hq|]. split; [|reflexivity].
        apply andb_false_iff in Hok. exact Hok. }
      apply IH in H.
      destruct H as [[-> Hr] | (k & d & w2 & Hk & Hr & Hq2 & Hin & ->)].
      * left. split; [reflexivity|]. econstructor; eauto.
      * right. exists (S k), d, w2. split; [lia|].
        split; [econstructor; eauto|]. auto.
Qed.

Lemma querySensor_fuel_mono GPIO fuel fuel' results0 w r :
  querySensor fuel GPIO results0 w = Some r -> (fuel <= fuel')%nat ->
  querySensor fuel' GPIO results0 w = Some r.
Proof.
  intros Hq Hle. rewrite querySensor_unfold in *.
  destruct (sensorLowHighWait fuel GPIO (awake GPIO w)) as [[b w0]|] eqn:E;
    [|discriminate].
  rewrite (sensorLowHighWait_fuel_mono _ _ _ _ _ E Hle).
  destruct b; [|exact Hq].
  destruct (retrieveBytes 5 0 fuel GPIO _ w0) as [[st w2]|] eqn:E2;
    [|discriminate].
  rewrite (retrieveBytes_fuel_mono _ _ _ _ _ _ _ _ E2 Hle). exact Hq.
Qed.

Lemma queryLoop_fuel_mono NA GPIO fuel fuel' n : forall w r,
  queryLoop NA n fuel GPIO w = Some r -> (fuel <= fuel')%nat ->
  queryLoop NA n fuel' GPIO w = Some r.
Proof.
  induction n as [|n IH]; intros w r H Hle; [exact H|].
  rewrite queryLoop_S in *.
  destruct (querySensor fuel GPIO (repeat 0 4) w) as [[[ok data] w1]|] eqn:Hq;
    [|discriminate].
  rewrite (querySensor_fuel_mono _ _ _ _ _ _ Hq Hle).
  destruct (ok && withinCapabilities (parseReading data)); [exact H|].
  apply IH; assumption.
Qed.

(** ** Decoding *)

Lemma sign_bit_set (b : Z) :
  0 <= b < 256 -> Z.land b 128 <> 0 -> 128 <= b.
Proof.
  intros Hb Hs.
  destruct (Z_lt_le_dec b 128) as [Hlt|]; [|assumption].
  exfalso. apply Hs.
  assert (Hall : forallb (fun n => Z.land (Z.of_nat n) 128 =? 0) (seq 0 128)
                 = true) by (vm_compute; reflexivity).
  rewrite forallb_forall in Hall.
  specialize (Hall (Z.to_nat b)). rewrite Z2Nat.id in Hall by lia.
  apply Z.eqb_eq, Hall, in_seq. lia.
Qed.

Lemma withinCapabilities_iff (r : sensorOutput) :
  withinCapabilities r = true <->
  (SENSOR_TMP_MIN <= temperature r /\ temperature r <= SENSOR_TMP_MAX /\
   SENSOR_HUM_MIN <= humidity r /\ humidity r <= SENSOR_HUM_MAX)%Q.
Proof.
  unfold withinCapabilities. rewrite !andb_true_iff, !Qle_bool_iff. tauto.
Qed.

Lemma rawTemperature_value (b0 b1 b2 b3 : Z) :
  rawTemperature [b0; b1; b2; b3] = (b2 * 256 + b3) * 1 # 10.
Proof. reflexivity. Qed.

(** With the sign bit set, the unmasked magnitude is at least 3276.8 and
    its negation is below every documented temperature. *)
Lemma sign_bit_out_of_range (b0 b1 b2 b3 : Z) :
  0 <= b2 < 256 -> 0 <= b3 < 256 -> Z.land b2 128 <> 0 ->
  (32768 # 10 <= rawTemperature [b0; b1; b2; b3])%Q /\
  (temperature (parseReading [b0; b1; b2; b3]) <= - (32768 # 10))%Q /\
  withinCapabilities (parseReading [b0; b1; b2; b3]) = false.
Proof.
  intros H2 H3 Hs. pose proof (sign_bit_set b2 H2 Hs) as Hge.
  assert (Hraw : (32768 # 10 <= rawTemperature [b0; b1; b2; b3])%Q).
  { rewrite rawTemperature_value. unfold Qle. simpl. lia. }
  assert (Ht : (temperature (parseReading [b0; b1; b2; b3]) <= - (32768 # 10))%Q).
  { unfold parseReading. cbn [array_get nth].
    destruct (Z.land b2 128 =? 0) eqn:E; [apply Z.eqb_eq in E; contradiction|].
    cbn [negb temperature]. rewrite rawTemperature_value.
    unfold Qle. simpl. lia. }
  split; [exact Hraw|]. split; [exact Ht|].
  destruct (withinCapabilities (parseReading [b0; b1; b2; b3])) eqn:W;
    [|reflexivity].
  apply withinCapabilities_iff in W. destruct W as (W & _).
  exfalso. revert W Ht. unfold SENSOR_TMP_MIN, Qle. simpl. lia.
Qed.

Lemma accepted_temperature_nonneg (b0 b1 b2 b3 : Z) :
  0 <= b2 < 256 -> 0 <= b3 < 256 ->
  withinCapabilities (parseReading [b0; b1; b2; b3]) = true ->
  (0 <= temperature (parseReading [b0; b1; b2; b3]))%Q /\
  Z.land b2 128 = 0.
Proof.
  intros H2 H3 W.
  destruct (Z.eq_dec (Z.land b2 128) 0) as [E|E].
  - split; [|exact E]. unfold parseReading. cbn [array_get nth].
    rewrite E. cbn [Z.eqb negb]. cbn [temperature].
    rewrite rawTemperature_value. unfold Qle. simpl. lia.
  - destruct (sign_bit_out_of_range b0 b1 b2 b3 H2 H3 E) as (_ & _ & F).
    congruence.
Qed.

(** The range tests of line 240 give the same answers on binary64
    values as on the exact quotients, for every pair of bytes, negated or
    not; and the two values of the specification's scenario are the
    doubles that the literals 26.4 and 65.2 denote. *)
Lemma binary64_same_tests (hi lo : Z) :
  0 <= hi < 256 -> 0 <= lo < 256 -> binary64_agrees hi lo = true.
Proof.
  intros Hhi Hlo.
  assert (Hall : forallb (fun h => forallb (fun l =>
                   binary64_agrees (Z.of_nat h) (Z.of_nat l)) (seq 0 256))
                   (seq 0 256) = true) by (vm_compute; reflexivity).
  rewrite forallb_forall in Hall.
  specialize (Hall (Z.to_nat hi)). rewrite forallb_forall in Hall.
  specialize (Hall ltac:(apply in_seq; lia) (Z.to_nat lo)).
  rewrite !Z2Nat.id in Hall by lia. apply Hall, in_seq. lia.
Qed.

#[warnings="-inexact-float"] Lemma binary64_scenario :
  PrimFloat.eqb (tenth64 (1 * 256 + 8)) 26.4%float = true /\
  PrimFloat.eqb (tenth64 (2 * 256 + 140)) 65.2%float = true.
Proof. split; vm_compute; reflexivity. Qed.

(** ** Scripted worlds *)

Lemma ticking_clock_normalised sec usec step k :
  normalised (ticking_clock sec usec step k).
Proof.
  unfold normalised, ticking_clock. simpl. apply Z.mod_pos_bound. lia.
Qed.

Lemma recorded_clock_normalised n c :
  (forall k, normalised (c k)) -> forall k, normalised (recorded_clock n c k).
Proof.
  intros Hc k. unfold recorded_clock.
  destruct (nth_in_or_default k (map c (seq 0 n)) (c n)) as [Hin | ->].
  - apply in_map_iff in Hin. destruct Hin as (i & <- & _). apply Hc.
  - apply Hc.
Qed.

Lemma scripted_world_normalised script rest step :
  normalised_clock (scripted_world script rest step).
Proof.
  intros k. apply recorded_clock_normalised. intros i.
  apply ticking_clock_normalised.
Qed.

(** ** Termination

    The busy-wait loops end for every behaviour of the line as soon as the
    clock cannot stay behind a deadline for ever. *)

Lemma clock_advances_quiet w w' :
  quiet w w' -> clock_advances w -> clock_advances w'.
Proof.
  intros Hq Hc t n. rewrite (quiet_clock _ _ Hq). apply Hc.
Qed.

Lemma pollWhile_expiry_terminates GPIO lvl timeUp (m : nat) : forall w,
  timercmp_gt (polled_time w m) timeUp = true ->
  exists r, pollWhile (S m) GPIO lvl timeUp w = Some r.
Proof.
  induction m as [|m IH]; intros w H; rewrite pollWhile_S.
  - rewrite polled_time_0 in H. rewrite H.
    destruct (level_eqb (input w GPIO (nreads w)) lvl); eauto.
  - destruct (level_eqb (input w GPIO (nreads w)) lvl); [|eauto].
    destruct (timercmp_gt (clock w (nclock w)) timeUp); [eauto|].
    apply IH. rewrite polled_time_advance. exact H.
Qed.

Lemma pollWhile_terminates GPIO lvl timeUp w :
  clock_advances w ->
  exists fuel r, pollWhile fuel GPIO lvl timeUp w = Some r.
Proof.
  intros Hc. destruct (Hc timeUp (nclock w)) as (m & Hm & H).
  exists (S (m - nclock w)).
  apply pollWhile_expiry_terminates. unfold polled_time.
  replace (nclock w + (m - nclock w))%nat with m by lia. exact H.
Qed.

Lemma sensorLowHighWait_terminates GPIO w :
  clock_advances w ->
  exists fuel r, sensorLowHighWait fuel GPIO w = Some r.
Proof.
  intros Hc.
  destruct (pollWhile_terminates GPIO HIGH (one_ms_after (clock w (nclock w)))
              (advance w 0 1)) as (f1 & [b1 w1] & E1).
  { eapply clock_advances_quiet; [apply quiet_advance | exact Hc]. }
  destruct b1.
  - destruct (pollWhile_advance _ _ _ _ _ _ _ E1) as (r & c & Hw1).
    destruct (pollWhile_terminates GPIO LOW
                (one_ms_after (clock w1 (nclock w1))) (advance w1 0 1))
      as (f2 & [b2 w2] & E2).
    { subst w1. rewrite !advance_advance.
      eapply clock_advances_quiet; [apply quiet_advance | exact Hc]. }
    exists (f1 + f2)%nat. rewrite sensorLowHighWait_unfold.
    rewrite (pollWhile_fuel_mono _ _ _ _ (f1 + f2)%nat _ _ E1) by lia.
    rewrite (pollWhile_fuel_mono _ _ _ _ (f1 + f2)%nat _ _ E2) by lia.
    destruct b2; eauto.
  - exists f1. rewrite sensorLowHighWait_unfold, E1. eauto.
Qed.

Lemma retrieveBits_terminates GPIO remaining : forall result w,
  clock_advances w ->
  exists fuel r, retrieveBits remaining fuel GPIO result w = Some r.
Proof.
  induction remaining as [|n IH]; intros result w Hc.
  - exists 0%nat. simpl. unfold ret. eauto.
  - destruct (sensorLowHighWait_terminates GPIO w Hc) as (f1 & [b w1] & E).
    destruct b.
    + destruct (IH (shift_bit result (fst (sample_after GPIO w1)))
                   (snd (sample_after GPIO w1))) as (f2 & r & E2).
      { eapply clock_advances_quiet; [|exact Hc].
        eapply quiet_trans; [eapply sensorLowHighWait_quiet; exact E|].
        apply sample_after_quiet. }
      exists (f1 + f2)%nat, r. rewrite retrieveBits_S.
      rewrite (sensorLowHighWait_fuel_mono _ _ (f1 + f2)%nat _ _ E) by lia.
      apply retrieveBits_fuel_mono with (fuel := f2); [exact E2 | lia].
    + exists f1. rewrite retrieveBits_S, E. eauto.
Qed.

Lemma retrieveBytes_terminates GPIO remaining : forall byte st w,
  clock_advances w ->
  exists fuel r, retrieveBytes remaining byte fuel GPIO st w = Some r.
Proof.
  induction remaining as [|n IH]; intros byte st w Hc.
  - exists 0%nat. simpl. unfold ret. eauto.
  - destruct (retrieveBits_terminates GPIO 8 0 w Hc) as (f1 & [b w1] & E).
    destruct (IH (S byte) (store_byte st byte b) w1) as (f2 & r & E2).
    { eapply clock_advances_quiet; [|exact Hc].
      eapply retrieveBits_quiet; exact E. }
    exists (f1 + f2)%nat, r. rewrite retrieveBytes_S. unfold retrieveByte.
    rewrite (retrieveBits_fuel_mono _ _ (f1 + f2)%nat _ _ _ _ E) by lia.
    apply retrieveBytes_fuel_mono with (fuel := f2); [exact E2 | lia].
Qed.

Lemma awake_quiet_clock GPIO w :
  clock_advances w -> clock_advances (awake GPIO w).
Proof. exact (fun H => H). Qed.

Lemma querySensor_terminates GPIO results0 w :
  clock_advances w ->
  exists fuel r, querySensor fuel GPIO results0 w = Some r.
Proof.
  intros Hc.
  destruct (sensorLowHighWait_terminates GPIO (awake GPIO w)
              (awake_quiet_clock GPIO w Hc)) as (f1 & [b w1] & E).
  destruct b.
  - destruct (retrieveBytes_terminates GPIO 5 0
                (mkQueryState (repeat 0 5) results0 0) w1)
      as (f2 & [st w2] & E2).
    { eapply clock_advances_quiet;
        [eapply sensorLowHighWait_quiet; exact E | exact Hc]. }
    exists (f1 + f2)%nat. rewrite querySensor_unfold.
    rewrite (sensorLowHighWait_fuel_mono _ _ (f1 + f2)%nat _ _ E) by lia.
    rewrite (retrieveBytes_fuel_mono _ _ (f1 + f2)%nat _ _ _ _ _ E2) by lia.
    eauto.
  - exists f1. rewrite querySensor_unfold, E. eauto.
Qed.

Lemma queryLoop_terminates NA GPIO n : forall w,
  clock_advances w ->
  exists fuel r, queryLoop NA n fuel GPIO w = Some r.
Proof.
  induction n as [|n IH]; intros w Hc.
  - exists 0%nat. simpl. unfold ret. eauto.
  - destruct (querySensor_terminates GPIO (repeat 0 4) w Hc)
      as (f1 & [[ok data] w1] & E).
    destruct (IH (cooled w1)) as (f2 & r & E2).
    { apply querySensor_effect in E. destruct E as (_ & _ & Hk & _).
      intros t k. unfold cooled. simpl. rewrite Hk. apply Hc. }
    exists (f1 + f2)%nat. rewrite queryLoop_S.
    rewrite (querySensor_fuel_mono _ _ (f1 + f2)%nat _ _ _ E) by lia.
    destruct (ok && withinCapabilities (parseReading data)); [eauto|].
    exists r. apply queryLoop_fuel_mono with (fuel := f2); [exact E2 | lia].
Qed.

(** With a clock that advances, [parseSensorOutput] always comes back. *)
Lemma parseSensorOutput_terminates NA GPIO w :
  clock_advances w ->
  exists fuel out w', parseSensorOutput NA fuel GPIO w = Some (out, w').
Proof.
  intros Hc. destruct (queryLoop_terminates NA GPIO 5 w Hc) as (f & [r w'] & E).
  exists f. rewrite parseSensorOutput_unfold, E.
  destruct (wiringPi_status w =? -1); eauto.
Qed.

(** A clock that ticks satisfies the assumption. *)
Lemma ticking_clock_advances (w : World) (sec usec step : Z) :
  0 < step -> 0 <= usec ->
  clock w = ticking_clock sec usec step -> clock_advances w.
Proof.
  intros Hstep Husec Hw t n. rewrite Hw.
  exists (n + Z.to_nat (Z.max 0 (tv_sec t + 1 - sec) * 1000000))%nat.
  split; [lia|].
  unfold timercmp_gt, ticking_clock. cbn [tv_sec tv_usec].
  set (m := (n + Z.to_nat (Z.max 0 (tv_sec t + 1 - sec) * 1000000))%nat).
  assert (Hdiv : Z.max 0 (tv_sec t + 1 - sec)
                 <= (usec + step * Z.of_nat m) / 1000000).
  { apply Z.div_le_lower_bound; [lia|]. subst m. nia. }
  replace (sec + (usec + step * Z.of_nat m) / 1000000 =? tv_sec t)
    with false by (symmetry; apply Z.eqb_neq; lia).
  apply Z.ltb_lt. lia.
Qed.

(** ** The claims *)

(** C1.  The specification wants the sign bit of byte[2] masked off
    before the magnitude is formed, so that bytes 0x81 0x08 decode to
    -26.4.  The source forms the magnitude from the whole byte (line 231)
    and only then negates it (lines 235-237): the same bytes decode to
    -3303.2, which the range check rejects, and a sensor that sends them
    with a correct checksum at every attempt that reaches it is reported as
    not available. *)
Theorem parseReading_negative_magnitude_keeps_sign_bit :
  Qeq (temperature (parseReading [2; 140; 129; 8])) (- (33032 # 10))%Q /\
  ~ Qeq (temperature (parseReading [2; 140; 129; 8])) (- (264 # 10))%Q /\
  withinCapabilities (parseReading [2; 140; 129; 8]) = false /\
  (exists w1 w',
     querySensor 20 7 (repeat 0 4) freezing_world
     = Some ((TRUE, [2; 140; 129; 8]), w1) /\
     parseSensorOutput (-1000) 20 7 freezing_world
     = Some (Returned (notAvailable (-1000)), w')).
Proof.
  split; [reflexivity|]. split; [intros H; discriminate H|].
  split; [reflexivity|].
  eexists. eexists. split; vm_compute; reflexivity.
Qed.

(** C2.  The specification wants the default policy back on every exit
    path of a session.  When the acknowledgement wait fails, the source
    returns at line 164 without calling [setDefaultPriority]: on a line
    that rests HIGH the session returns failure with the thread still
    under the FIFO policy, and after the five attempts of
    [parseSensorOutput] the process is still elevated.  The thread of
    [silent_world] has the privilege that the FIFO policy needs; without
    it the request of line 55 fails and there is no elevation to restore
    ([querySensor_ack_failure]). *)
Theorem querySensor_ack_failure_stays_elevated :
  policy silent_world = SCHED_OTHER /\
  (exists w',
     querySensor 20 7 (repeat 0 4) silent_world
     = Some ((FALSE, repeat 0 4), w') /\ policy w' = SCHED_FIFO) /\
  (exists w',
     parseSensorOutput (-1000) 20 7 silent_world
     = Some (Returned (notAvailable (-1000)), w') /\ policy w' = SCHED_FIFO).
Proof.
  split; [reflexivity|]. split.
  - eexists.
    refine (querySensor_ack_failure 20 7 (repeat 0 4) silent_world _ _).
    vm_compute. reflexivity.
  - eexists. split; [vm_compute; reflexivity | reflexivity].
Qed.

(** C3.  A session that reaches the elapsed-time check with a non-zero
    seconds component, or with zero seconds and more than 16000
    microseconds, returns failure, whatever bytes and checksum it holds. *)
Theorem querySensor_over_budget_fails fuel GPIO results0 w st w2 :
  reachesTimingCheck fuel GPIO results0 w st w2 ->
  tv_sec (elapsed w w2) <> 0
  \/ (tv_sec (elapsed w w2) = 0 /\ 16000 < tv_usec (elapsed w w2)) ->
  querySensor fuel GPIO results0 w = Some ((FALSE, results st), finished w2).
Proof.
  intros (w1 & Hack & Hbytes) Hslow.
  rewrite querySensor_unfold, Hack, Hbytes. unfold verdict.
  replace (negb (tv_sec (elapsed w w2) =? 0) || (16000 <? tv_usec (elapsed w w2)))
    with true; [reflexivity|].
  symmetry. apply orb_true_iff. destruct Hslow as [Hs | [_ Hu]].
  - left. apply negb_true_iff, Z.eqb_neq, Hs.
  - right. apply Z.ltb_lt, Hu.
Qed.

Lemma querySensor_over_budget_fails_witness :
  exists w2,
    16000 < tv_usec (elapsed slow_world w2) /\
    Z.land 151 255 = array_get [2; 140; 1; 8; 151] 4 /\
    querySensor 10 7 (repeat 0 4) slow_world
    = Some ((FALSE, [2; 140; 1; 8]), finished w2).
Proof.
  eexists. split; [|split; [reflexivity|]].
  2:{ apply (querySensor_over_budget_fails 10 7 (repeat 0 4) slow_world
               (mkQueryState [2; 140; 1; 8; 151] [2; 140; 1; 8] 151)).
      - eexists. split; [vm_compute; reflexivity | vm_compute; reflexivity].
      - right. split; vm_compute; reflexivity. }
  vm_compute. reflexivity.
Defined.



(** C5.  [parseSensorOutput] starts at most five sessions; when five
    attempts in a row are rejected (the session fails, or its values are
    out of range) it returns the not-available value in both fields, having
    started exactly five sessions. *)
Theorem parseSensorOutput_five_attempts NA fuel GPIO w :
  (forall out w',
     parseSensorOutput NA fuel GPIO w = Some (out, w') ->
     (sessions w' <= sessions w + 5)%nat) /\
  (forall w',
     wiringPi_status w <> -1 ->
     rejections fuel GPIO 5 w w' ->
     parseSensorOutput NA fuel GPIO w = Some (Returned (notAvailable NA), w') /\
     temperature (notAvailable NA) = NA /\ humidity (notAvailable NA) = NA /\
     sessions w' = (sessions w + 5)%nat).
Proof.
  split.
  - intros out w' H. rewrite parseSensorOutput_unfold in H.
    destruct (wiringPi_status w =? -1).
    + inversion H; subst. unfold sessions. simpl. lia.
    + destruct (queryLoop NA 5 fuel GPIO w) as [[r w1]|] eqn:E; [|discriminate].
      inversion H; subst. apply queryLoop_sound in E.
      destruct E as [[_ Hr] | (k & data & w1 & Hk & Hr & Hq & _)].
      * apply rejections_effect in Hr. lia.
      * apply rejections_effect in Hr. apply querySensor_effect in Hq. lia.
  - intros w' Hs Hr. rewrite parseSensorOutput_unfold.
    apply Z.eqb_neq in Hs. rewrite Hs.
    pose proof (queryLoop_rejections NA _ _ _ _ _ Hr 0%nat) as E.
    cbn [Nat.add] in E. rewrite E.
    apply rejections_effect in Hr. cbn [queryLoop ret]. tauto.
Qed.

Lemma parseSensorOutput_five_attempts_witness :
  exists w',
    parseSensorOutput (-1000) 20 7 silent_world
    = Some (Returned (notAvailable (-1000)), w') /\
    sessions w' = 5%nat /\
    (sessions w' <= sessions silent_world + 5)%nat.
Proof.
  assert (R : exists w', rejections 20 7 5 silent_world w').
  { eexists.
    do 5 (eapply rejections_S;
          [ exists false; eexists; eexists;
            split; [vm_compute; reflexivity|];
            split; [left; reflexivity | reflexivity] |]).
    apply rejections_O. }
  destruct R as [w' R]. exists w'.
  destruct (parseSensorOutput_five_attempts (-1000) 20 7 silent_world)
    as [Hle H].
  destruct (H w') as (Hp & _ & _ & Hs); [discriminate | exact R |].
  split; [exact Hp|]. split; [exact Hs|].
  exact (Hle _ _ Hp).
Defined.

(** C6.  A Measurement that [parseSensorOutput] returns and that is not
    the not-available value has a non-negative temperature: with the sign
    bit of byte[2] set, the magnitude the source computes is at least
    3276.8, its negation fails the range check, and the reading is never
    returned. *)
Theorem parseSensorOutput_never_negative NA fuel GPIO w r w' :
  parseSensorOutput NA fuel GPIO w = Some (Returned r, w') ->
  r <> notAvailable NA ->
  (0 <= temperature r)%Q /\
  (forall b0 b1 b2 b3,
     0 <= b2 < 256 -> 0 <= b3 < 256 -> Z.land b2 128 <> 0 ->
     (32768 # 10 <= rawTemperature [b0; b1; b2; b3])%Q /\
     withinCapabilities (parseReading [b0; b1; b2; b3]) = false).
Proof.
  intros H Hna. split.
  - rewrite parseSensorOutput_unfold in H.
    destruct (wiringPi_status w =? -1); [discriminate|].
    destruct (queryLoop NA 5 fuel GPIO w) as [[r1 w1]|] eqn:E; [|discriminate].
    inversion H; subst. apply queryLoop_sound in E.
    destruct E as [[E _] | (k & data & w1 & _ & _ & Hq & Hin & ->)];
      [contradiction|].
    apply querySensor_effect in Hq. destruct Hq as (_ & _ & _ & _ & Hd).
    destruct (Hd eq_refl) as (b0 & b1 & b2 & b3 & -> & Hr).
    inversion Hr as [|? ? _ Hr1]; inversion Hr1 as [|? ? _ Hr2];
      inversion Hr2 as [|? ? R2 Hr3]; inversion Hr3 as [|? ? R3 _].
    apply accepted_temperature_nonneg; assumption.
  - intros b0 b1 b2 b3 H2 H3 Hs.
    destruct (sign_bit_out_of_range b0 b1 b2 b3 H2 H3 Hs) as (A & _ & B).
    split; assumption.
Qed.

Lemma parseSensorOutput_never_negative_witness :
  exists r w',
    parseSensorOutput (-1000) 10 7 scenario_world = Some (Returned r, w') /\
    (0 <= temperature r)%Q /\
    withinCapabilities (parseReading [2; 140; 129; 8]) = false.
Proof.
  eexists. eexists.
  assert (H : parseSensorOutput (-1000) 10 7 scenario_world
              = Some (Returned (mkSensorOutput (264 # 10) (652 # 10)),
                      finished (session_read 7 scenario_world))).
  { vm_compute. reflexivity. }
  split; [exact H|].
  destruct (parseSensorOutput_never_negative _ _ _ _ _ _ H) as [Hpos Hsign].
  - discriminate.
  - split; [exact Hpos|].
    apply (Hsign 2 140 129 8); [lia | lia | discriminate].
Defined.

(** C7.  A returned Measurement that is not the not-available value lies
    in the documented ranges; and the first session that succeeds with
    values in both ranges ends [parseSensorOutput] in the world that
    session returns in: no cooldown and no further session follows. *)
Theorem parseSensorOutput_in_range_or_unavailable NA fuel GPIO w :
  (forall r w',
     parseSensorOutput NA fuel GPIO w = Some (Returned r, w') ->
     r <> notAvailable NA ->
     (SENSOR_TMP_MIN <= temperature r /\ temperature r <= SENSOR_TMP_MAX /\
      SENSOR_HUM_MIN <= humidity r /\ humidity r <= SENSOR_HUM_MAX)%Q) /\
  (forall k w1 data w',
     wiringPi_status w <> -1 ->
     (k < 5)%nat ->
     rejections fuel GPIO k w w1 ->
     querySensor fuel GPIO (repeat 0 4) w1 = Some ((TRUE, data), w') ->
     withinCapabilities (parseReading data) = true ->
     parseSensorOutput NA fuel GPIO w = Some (Returned (parseReading data), w') /\
     sessions w' = (sessions w + k + 1)%nat /\
     cooldowns w' = (cooldowns w + k)%nat).
Proof.
  split.
  - intros r w' H Hna. rewrite parseSensorOutput_unfold in H.
    destruct (wiringPi_status w =? -1); [discriminate|].
    destruct (queryLoop NA 5 fuel GPIO w) as [[r1 w1]|] eqn:E; [|discriminate].
    inversion H; subst. apply queryLoop_sound in E.
    destruct E as [[E _] | (k & data & w1 & _ & _ & _ & Hin & ->)];
      [contradiction|].
    apply withinCapabilities_iff, Hin.
  - intros k w1 data w' Hs Hk Hr Hq Hin. rewrite parseSensorOutput_unfold.
    apply Z.eqb_neq in Hs. rewrite Hs.
    replace 5%nat with (k + S (4 - k))%nat by lia.
    rewrite (queryLoop_rejections NA _ _ _ _ _ Hr).
    rewrite queryLoop_S, Hq. unfold TRUE. cbn [andb]. rewrite Hin.
    apply rejections_effect in Hr. apply querySensor_effect in Hq.
    repeat split; lia.
Qed.

Lemma parseSensorOutput_in_range_or_unavailable_witness :
  exists w',
    parseSensorOutput (-1000) 10 7 scenario_world
    = Some (Returned (parseReading [2; 140; 1; 8]), w') /\
    sessions w' = 1%nat /\ cooldowns w' = 0%nat /\
    Qle SENSOR_TMP_MIN (temperature (parseReading [2; 140; 1; 8])).
Proof.
  eexists.
  destruct (parseSensorOutput_in_range_or_unavailable (-1000) 10 7
              scenario_world) as [Hrange H].
  destruct (H 0%nat scenario_world [2; 140; 1; 8]
              (finished (session_read 7 scenario_world)))
    as (Hp & Hs & Hc).
  - discriminate.
  - lia.
  - apply rejections_O.
  - vm_compute. reflexivity.
  - reflexivity.
  - split; [exact Hp|]. split; [exact Hs|]. split; [exact Hc|].
    apply (Hrange _ _ Hp). discriminate.
Defined.

(** C8.  A session that retrieves 0x02 0x8C 0x01 0x08 0x97 within the
    time budget passes the checksum check, and [parseSensorOutput] returns
    temperature 26.4 and humidity 65.2, which are (1*256 + 8)/10 and
    (2*256 + 140)/10. *)
Theorem parseSensorOutput_scenario NA fuel GPIO w st w2 :
  wiringPi_status w <> -1 ->
  reachesTimingCheck fuel GPIO (repeat 0 4) w st w2 ->
  retrievedBytes st = [2; 140; 1; 8; 151] ->
  tv_sec (elapsed w w2) = 0 -> tv_usec (elapsed w w2) <= 16000 ->
  querySensor fuel GPIO (repeat 0 4) w
  = Some ((TRUE, [2; 140; 1; 8]), finished w2) /\
  parseSensorOutput NA fuel GPIO w
  = Some (Returned (mkSensorOutput 26.4 65.2), finished w2) /\
  Qeq 26.4 (inject_Z (1 * 256 + 8) / inject_Z 10) /\
  Qeq 65.2 (inject_Z (2 * 256 + 140) / inject_Z 10).
Proof.
  intros Hs Hreach Hrb Hsec Husec.
  assert (Hq : querySensor fuel GPIO (repeat 0 4) w
               = Some ((TRUE, [2; 140; 1; 8]), finished w2)).
  { destruct Hreach as (w1 & Hack & Hbytes).
    rewrite querySensor_unfold, Hack, Hbytes.
    apply retrieveBytes_payload in Hbytes.
    destruct Hbytes as (c0 & c1 & c2 & c3 & c4 & Hc & _ & Hcs & Hres).
    rewrite Hrb in Hc. inversion Hc; subst.
    unfold verdict. rewrite Hsec, Hrb, Hcs, Hres.
    replace (16000 <? tv_usec (elapsed w w2)) with false
      by (symmetry; apply Z.ltb_ge; exact Husec).
    reflexivity. }
  split; [exact Hq|]. split; [|split; reflexivity].
  rewrite parseSensorOutput_unfold. apply Z.eqb_neq in Hs. rewrite Hs.
  rewrite queryLoop_S, Hq. reflexivity.
Qed.

Lemma parseSensorOutput_scenario_witness :
  exists w',
    parseSensorOutput (-1000) 10 7 scenario_world
    = Some (Returned (mkSensorOutput 26.4 65.2), w').
Proof.
  eexists.
  apply (parseSensorOutput_scenario (-1000) 10 7 scenario_world
           (mkQueryState [2; 140; 1; 8; 151] [2; 140; 1; 8] 151)
           (session_read 7 scenario_world)).
  - discriminate.
  - eexists. split; [vm_compute; reflexivity | vm_compute; reflexivity].
  - reflexivity.
  - vm_compute. reflexivity.
  - vm_compute. discriminate.
Defined.

(** C9.  [retrieveByte] is the Byte Sampler: either eight bit cells in a
    row, each a low-to-high transition wait, a 30 microsecond delay and
    then a sample of the line, the samples forming the byte with the first
    one as most significant bit; or, after fewer than eight cells, a
    transition wait that fails, and then the value is the plain byte 0.
    The order of delay and sample shows in the world [retrieveByte] returns
    in: the reads of the line come in cells, the polls of a wait at one
    amount of delay and the single sample that follows them 30 microseconds
    later, with only the polls of a failed wait after the last cell. *)
Theorem retrieveByte_byte_sampler GPIO w :
  normalised_clock w ->
  (forall v w',
     (exists fuel, retrieveByte fuel GPIO w = Some (v, w')) <->
     ByteSample GPIO w v w') /\
  (clock_advances w ->
   exists fuel v w', retrieveByte fuel GPIO w = Some (v, w')) /\
  (forall fuel v w',
     retrieveByte fuel GPIO w = Some (v, w') ->
     exists polls failed,
       (List.length polls <= 8)%nat /\
       (List.length polls = 8%nat -> failed = 0%nat) /\
       log w' = repeat (EvDelayMicroseconds 30) (List.length polls) ++ log w /\
       delayed w' = delayed w + 30 * Z.of_nat (List.length polls) /\
       sampled_at w' = repeat (delayed w') failed
                       ++ cell_times (delayed w) polls ++ sampled_at w).
Proof.
  intros Hc. split; [intros v w'; split | split].
  - intros [fuel H]. unfold retrieveByte in H.
    apply retrieveBits_sound in H; [|exact Hc].
    destruct H as [(bits & Hl & Hb & ->) | (bits & w1 & Hl & Hb & Hf & ->)].
    + rewrite shift_in_msb_first by exact Hl. constructor; assumption.
    + econstructor; eassumption.
  - intros H. destruct H as [bits w' Hl Hb | bits w1 w' Hl Hb Hf].
    + destruct (retrieveBits_complete _ _ _ _ Hc Hb) as [fuel H].
      exists fuel. unfold retrieveByte.
      rewrite <- Hl, H, shift_in_msb_first by exact Hl. reflexivity.
    + destruct (retrieveBits_abort _ _ _ _ _ (7 - List.length bits) Hc Hb Hf)
        as [fuel H].
      exists fuel. unfold retrieveByte.
      replace 8%nat with (List.length bits + S (7 - List.length bits))%nat
        by lia.
      apply H.
  - intros Ha. destruct (retrieveBits_terminates GPIO 8 0 w Ha)
      as (fuel & [v w'] & H).
    exists fuel, v, w'. exact H.
  - intros fuel v w' H. unfold retrieveByte in H.
    destruct (retrieveBits_timeline _ _ _ _ _ _ _ H)
      as (polls & failed & Hle & Hfull & Hlog & Hd & Hs).
    exists polls, failed. repeat split; assumption.
Qed.

Lemma retrieveByte_byte_sampler_witness :
  (exists w',
     ByteSample 7
       (scripted_world (flat_map bit_cell (bits_of_byte 140)) HIGH 100)
       140 w') /\
  (exists fuel v w', retrieveByte fuel 7 ticking_world = Some (v, w')) /\
  (exists w',
     retrieveByte 10 7
       (scripted_world (flat_map bit_cell (bits_of_byte 140)) HIGH 100)
     = Some (140, w') /\
     delayed w' = 240 /\
     sampled_at w' = cell_times 0 (repeat 2%nat 8)).
Proof.
  destruct (retrieveByte_byte_sampler 7
              (scripted_world (flat_map bit_cell (bits_of_byte 140)) HIGH 100)
              (scripted_world_normalised _ _ _)) as (H & _ & Hs).
  destruct (retrieveByte_byte_sampler 7 ticking_world
              (ticking_clock_normalised _ _ _)) as (_ & Ht & _).
  split; [|split].
  - eexists. apply (proj1 (H _ _)). exists 10%nat. vm_compute. reflexivity.
  - apply Ht.
    apply (ticking_clock_advances ticking_world 1700000000 0 100);
      [lia | lia | reflexivity].
  - assert (E : exists w',
               retrieveByte 10 7
                 (scripted_world (flat_map bit_cell (bits_of_byte 140)) HIGH 100)
               = Some (140, w') /\
               sampled_at w' = cell_times 0 (repeat 2%nat 8) /\
               List.length (log w') = 8%nat).
    { eexists. split; [vm_compute; reflexivity|].
      split; [vm_compute; reflexivity | vm_compute; reflexivity]. }
    destruct E as (w' & E & Et & El). exists w'.
    split; [exact E|]. split; [|exact Et].
    destruct (Hs _ _ _ E) as (polls & failed & _ & _ & Hlog & Hd & _).
    rewrite Hlog, length_app, repeat_length in El.
    cbn [log scripted_world List.length] in El.
    rewrite Hd. cbn [delayed scripted_world]. lia.
Defined.

(** A failed sample and a sample of eight low bits give the same value:
    nothing but the byte comes back. *)
Lemma retrieveByte_zero_is_ambiguous :
  (exists w', retrieveByte 20 7 silent_world = Some (0, w') /\
              TimedWait 7 silent_world false w') /\
  (exists w', retrieveByte 20 7
                (scripted_world (flat_map bit_cell (bits_of_byte 0)) HIGH 100)
              = Some (0, w') /\
              (nreads w' = 24)%nat).
Proof.
  split.
  - eexists. split; [vm_compute; reflexivity|].
    apply sensorLowHighWait_sound with (fuel := 20%nat).
    + apply scripted_world_normalised.
    + vm_compute. reflexivity.
  - eexists. split; [vm_compute; reflexivity | reflexivity].
Qed.

(** C10.  [sensorLowHighWait] is the Timed Wait Primitive: a wait for the
    line to leave HIGH, then a wait for it to reach HIGH, each with its own
    deadline 1000 microseconds after the time read when it starts; the
    answer is success exactly when both waits end inside their budgets,
    and failure when one of them overruns. *)
Theorem sensorLowHighWait_timed_wait GPIO w :
  normalised_clock w ->
  (forall b w',
     (exists fuel, sensorLowHighWait fuel GPIO w = Some (b, w')) <->
     TimedWait GPIO w b w') /\
  (forall w',
     TimedWait GPIO w true w' <->
     exists w1, SubWait GPIO HIGH w true w1 /\ SubWait GPIO LOW w1 true w') /\
  (clock_advances w ->
   exists fuel b w', sensorLowHighWait fuel GPIO w = Some (b, w')).
Proof.
  intros Hc. split; [|split].
  - intros b w'. split.
    + intros [fuel H]. eapply sensorLowHighWait_sound; eassumption.
    + apply sensorLowHighWait_complete, Hc.
  - intros w'. split.
    + intros H. inversion H; subst. eauto.
    + intros (w1 & S1 & S2). exact (TW_both GPIO w w1 w' true S1 S2).
  - intros Ha. destruct (sensorLowHighWait_terminates GPIO w Ha)
      as (fuel & [b w'] & H).
    eauto.
Qed.

Lemma sensorLowHighWait_timed_wait_witness :
  (exists w', TimedWait 7 scenario_world true w') /\
  (exists w', TimedWait 7 silent_world false w') /\
  (exists fuel b w', sensorLowHighWait fuel 7 ticking_world = Some (b, w')).
Proof.
  destruct (sensorLowHighWait_timed_wait 7 scenario_world
              (scripted_world_normalised _ _ _)) as (Hs & _ & _).
  destruct (sensorLowHighWait_timed_wait 7 silent_world
              (scripted_world_normalised _ _ _)) as (Hf & _ & _).
  destruct (sensorLowHighWait_timed_wait 7 ticking_world
              (ticking_clock_normalised _ _ _)) as (_ & _ & Ht).
  split; [|split].
  - eexists. apply (proj1 (Hs _ _)). exists 10%nat. vm_compute. reflexivity.
  - eexists. apply (proj1 (Hf _ _)). exists 20%nat. vm_compute. reflexivity.
  - apply Ht.
    apply (ticking_clock_advances ticking_world 1700000000 0 100);
      [lia | lia | reflexivity].
Defined.

(** * Further properties of the code *)

(** ** The transition wait on a line that is already in place, or stuck *)

(** When the first poll of the first loop reads LOW and the first poll of
    the second loop reads HIGH, the deadlines are set but never compared. *)
Lemma wait_first_polls fuel GPIO w :
  input w GPIO (nreads w) = LOW ->
  input w GPIO (S (nreads w)) = HIGH ->
  sensorLowHighWait (S fuel) GPIO w = Some (TRUE, advance w 2 2).
Proof.
  intros H0 H1. rewrite sensorLowHighWait_unfold, pollWhile_S.
  cbn [input nreads advance]. rewrite Nat.add_0_r, H0. cbn [level_eqb].
  rewrite pollWhile_S. cbn [input nreads advance].
  replace (nreads w + 0 + 1 + 0)%nat with (S (nreads w)) by lia.
  rewrite H1. cbn [level_eqb]. rewrite !advance_advance. reflexivity.
Qed.

Lemma pollWhile_true_sees_change GPIO lvl timeUp fuel : forall w w',
  pollWhile fuel GPIO lvl timeUp w = Some (true, w') ->
  exists k, input w GPIO (nreads w + k) <> lvl.
Proof.
  induction fuel as [|fuel IH]; intros w w' H; [discriminate H|].
  rewrite pollWhile_S in H.
  destruct (level_eqb (input w GPIO (nreads w)) lvl) eqn:E.
  - destruct (timercmp_gt (clock w (nclock w)) timeUp); [discriminate|].
    apply IH in H. destruct H as [k H]. exists (1 + k)%nat.
    cbn [input nreads advance] in H.
    replace (nreads w + (1 + k))%nat with (nreads w + 1 + k)%nat by lia.
    exact H.
  - apply level_eqb_neq in E. exists 0%nat. rewrite Nat.add_0_r. exact E.
Qed.

Lemma constant_line_never_true GPIO w lvl fuel b w' :
  (forall k, input w GPIO k = lvl) ->
  sensorLowHighWait fuel GPIO w = Some (b, w') -> b = FALSE.
Proof.
  intros Hline H. rewrite sensorLowHighWait_unfold in H.
  destruct (pollWhile fuel GPIO HIGH _ _) as [[[|] w1]|] eqn:E1;
    [| inversion H; reflexivity | discriminate].
  destruct (pollWhile fuel GPIO LOW _ _) as [[[|] w2]|] eqn:E2;
    [| inversion H; reflexivity | discriminate].
  destruct (pollWhile_advance _ _ _ _ _ _ _ E1) as (r & c & ->).
  apply pollWhile_true_sees_change in E1, E2.
  destruct E1 as [k1 E1], E2 as [k2 E2].
  cbn [input nreads advance] in E1, E2.
  rewrite Hline in E1, E2. destruct lvl; congruence.
Qed.

(** X1.  On a line that never changes level, [sensorLowHighWait] never
    answers TRUE; and when the clock advances it does answer, FALSE. *)
Theorem sensorLowHighWait_constant_line GPIO w lvl :
  (forall k, input w GPIO k = lvl) ->
  (forall fuel b w',
     sensorLowHighWait fuel GPIO w = Some (b, w') -> b = FALSE) /\
  (clock_advances w ->
   exists fuel w', sensorLowHighWait fuel GPIO w = Some (FALSE, w')).
Proof.
  intros Hline. split.
  - intros fuel b w' H. exact (constant_line_never_true _ _ _ _ _ _ Hline H).
  - intros Ha. destruct (sensorLowHighWait_terminates GPIO w Ha)
      as (fuel & [b w'] & H).
    exists fuel, w'. rewrite H.
    rewrite (constant_line_never_true _ _ _ _ _ _ Hline H). reflexivity.
Qed.

Lemma sensorLowHighWait_constant_line_witness :
  exists fuel w', sensorLowHighWait fuel 7 ticking_world = Some (FALSE, w').
Proof.
  destruct (sensorLowHighWait_constant_line 7 ticking_world HIGH) as [_ H].
  - intros k. unfold ticking_world, scripted_input. cbn [input].
    destruct k; reflexivity.
  - apply H.
    apply (ticking_clock_advances ticking_world 1700000000 0 100);
      [lia | lia | reflexivity].
Defined.

(** ** Reading back what a sensor sends *)

Lemma reads_next_nil GPIO w : reads_next GPIO w [].
Proof. intros i Hi. simpl in Hi. lia. Qed.

(** Reading on after a prefix of the script has been consumed. *)
Lemma reads_next_app GPIO w w' a b :
  reads_next GPIO w (a ++ b) ->
  input w' = input w -> nreads w' = (nreads w + List.length a)%nat ->
  reads_next GPIO w' b.
Proof.
  intros H Hi Hn i Hlt. rewrite Hi, Hn.
  specialize (H (List.length a + i)%nat).
  rewrite length_app in H. specialize (H ltac:(lia)).
  rewrite app_nth2 in H by lia.
  replace (List.length a + i - List.length a)%nat with i in H by lia.
  rewrite <- H. f_equal. lia.
Qed.

Lemma reads_next_head GPIO w l script :
  reads_next GPIO w (l :: script) -> input w GPIO (nreads w) = l.
Proof.
  intros H. specialize (H 0%nat ltac:(simpl; lia)).
  rewrite Nat.add_0_r in H. exact H.
Qed.

Lemma after_cells_S GPIO w n :
  after_cells (snd (sample_after GPIO (advance w 2 2))) n
  = after_cells w (S n).
Proof.
  unfold after_cells, sample_after. cbn [snd input nreads clock nclock
    fifo_priority_max policy sched_priority wiringPi_status log privileged
    delayed sampled_at event_delay advance with_event].
  replace (repeat (EvDelayMicroseconds 30) n ++ EvDelayMicroseconds 30 :: log w)
    with (repeat (EvDelayMicroseconds 30) (S n) ++ log w).
  - f_equal; try lia.
    cbn [cell_samples repeat app]. rewrite <- app_assoc. reflexivity.
  - change (EvDelayMicroseconds 30 :: log w)
      with ([EvDelayMicroseconds 30] ++ log w).
    rewrite app_assoc, <- repeat_cons. reflexivity.
Qed.

Lemma after_cells_O w : after_cells w 0 = w.
Proof. destruct w. unfold after_cells. simpl. f_equal; lia. Qed.

(** Bit cells that each show LOW, HIGH and then the bit are read back in
    order, with no assumption on the clock. *)
Lemma retrieveBits_reads_back GPIO fuel : forall bits result w,
  reads_next GPIO w (flat_map bit_cell bits) ->
  retrieveBits (List.length bits) (S fuel) GPIO result w
  = Some (shift_in result (map level_of_bit bits),
          after_cells w (List.length bits)).
Proof.
  induction bits as [|b bits IH]; intros result w H.
  - simpl. unfold ret. rewrite after_cells_O. reflexivity.
  - cbn [List.length]. rewrite retrieveBits_S.
    cbn [flat_map bit_cell app] in H.
    rewrite wait_first_polls.
    + assert (Hb : fst (sample_after GPIO (advance w 2 2)) = level_of_bit b).
      { unfold sample_after. cbn [fst input nreads with_event advance].
        specialize (H 2%nat ltac:(simpl; lia)). exact H. }
      rewrite Hb, IH.
      * rewrite after_cells_S. reflexivity.
      * apply (reads_next_app GPIO w _ [LOW; HIGH; level_of_bit b]).
        -- exact H.
        -- reflexivity.
        -- unfold sample_after. simpl. lia.
    + apply (reads_next_head _ _ _ _ H).
    + specialize (H 1%nat ltac:(simpl; lia)).
      rewrite Nat.add_1_r in H. exact H.
Qed.

Lemma bits_of_byte_shift_in (v : Z) :
  0 <= v < 256 -> shift_in 0 (map level_of_bit (bits_of_byte v)) = v.
Proof.
  intros Hv.
  assert (Hall : forallb (fun n =>
                   shift_in 0 (map level_of_bit (bits_of_byte (Z.of_nat n)))
                   =? Z.of_nat n) (seq 0 256) = true)
    by (vm_compute; reflexivity).
  rewrite forallb_forall in Hall.
  specialize (Hall (Z.to_nat v)). rewrite Z2Nat.id in Hall by lia.
  apply Z.eqb_eq, Hall, in_seq. lia.
Qed.

Lemma retrieveByte_reads_back_aux GPIO fuel v w :
  0 <= v < 256 ->
  reads_next GPIO w (flat_map bit_cell (bits_of_byte v)) ->
  retrieveByte (S fuel) GPIO w = Some (v, after_cells w 8).
Proof.
  intros Hv H. unfold retrieveByte.
  change 8%nat with (List.length (bits_of_byte v)).
  rewrite retrieveBits_reads_back by exact H.
  rewrite bits_of_byte_shift_in by exact Hv. reflexivity.
Qed.

Lemma scripted_world_reads_next GPIO script rest step :
  reads_next GPIO (scripted_world script rest step) script.
Proof.
  intros i Hi. unfold scripted_world, scripted_input. cbn [input nreads].
  apply nth_indep. exact Hi.
Qed.

(** X2.  A byte sent as eight bit cells (LOW, HIGH, then the bit, most
    significant first) is the byte [retrieveByte] returns, after 24 reads
    of the line, 16 of the clock and eight 30 microsecond delays, with no
    assumption on the clock. *)
Theorem retrieveByte_reads_back GPIO fuel v w :
  0 <= v < 256 ->
  reads_next GPIO w (flat_map bit_cell (bits_of_byte v)) ->
  exists w',
    retrieveByte (S fuel) GPIO w = Some (v, w') /\
    nreads w' = (nreads w + 24)%nat /\
    nclock w' = (nclock w + 16)%nat /\
    log w' = repeat (EvDelayMicroseconds 30) 8 ++ log w.
Proof.
  intros Hv H. exists (after_cells w 8).
  split; [apply retrieveByte_reads_back_aux; assumption|].
  repeat split.
Qed.

Lemma retrieveByte_reads_back_witness :
  exists w',
    retrieveByte 1 7
      (scripted_world (flat_map bit_cell (bits_of_byte 140)) HIGH 100)
    = Some (140, w') /\ nreads w' = 24%nat.
Proof.
  destruct (retrieveByte_reads_back 7 0 140
              (scripted_world (flat_map bit_cell (bits_of_byte 140)) HIGH 100))
    as (w' & H & Hr & _).
  - lia.
  - apply scripted_world_reads_next.
  - exists w'. split; [exact H | exact Hr].
Defined.

Lemma cell_samples_app (a b : nat) : forall d,
  cell_samples d (a + b)
  = cell_samples (d + 30 * Z.of_nat a) b ++ cell_samples d a.
Proof.
  induction a as [|a IH]; intros d.
  - cbn [Nat.add cell_samples]. rewrite app_nil_r.
    replace (d + 30 * Z.of_nat 0) with d by lia. reflexivity.
  - cbn [Nat.add cell_samples]. rewrite IH, <- app_assoc.
    replace (d + 30 + 30 * Z.of_nat a) with (d + 30 * Z.of_nat (S a)) by lia.
    reflexivity.
Qed.

Lemma after_cells_after_cells w a b :
  after_cells (after_cells w a) b = after_cells w (a + b).
Proof.
  unfold after_cells. cbn [input nreads clock nclock fifo_priority_max policy
    sched_priority wiringPi_status log privileged delayed sampled_at].
  rewrite cell_samples_app, <- (app_assoc (cell_samples _ b)).
  rewrite app_assoc, <- repeat_app, (Nat.add_comm b a). f_equal; lia.
Qed.

Lemma cells_length (v : Z) :
  List.length (flat_map bit_cell (bits_of_byte v)) = 24%nat.
Proof. reflexivity. Qed.

Lemma retrieveBytes_reads_back GPIO fuel : forall payload byte st w,
  Forall (fun b => 0 <= b < 256) payload ->
  reads_next GPIO w
    (flat_map (fun v => flat_map bit_cell (bits_of_byte v)) payload) ->
  retrieveBytes (List.length payload) byte (S fuel) GPIO st w
  = Some (store_all st byte payload,
          after_cells w (8 * List.length payload)).
Proof.
  induction payload as [|v payload IH]; intros byte st w Hr H.
  - simpl. unfold ret. rewrite after_cells_O. reflexivity.
  - inversion Hr as [|? ? Hv Hr']; subst.
    cbn [List.length flat_map] in *. rewrite retrieveBytes_S.
    rewrite (retrieveByte_reads_back_aux GPIO fuel v w Hv).
    + rewrite IH; [| exact Hr' |].
      * rewrite after_cells_after_cells. cbn [store_all].
        replace (8 * S (List.length payload))%nat
          with (8 + 8 * List.length payload)%nat by lia.
        reflexivity.
      * apply (reads_next_app GPIO w _ _ _ H); [reflexivity|].
        rewrite cells_length. simpl. lia.
    + intros i Hi. specialize (H i). rewrite length_app in H.
      rewrite H by lia. rewrite app_nth1 by exact Hi. reflexivity.
Qed.

(** What the session has stored after a full payload. *)
Lemma store_all_payload results0 b0 b1 b2 b3 b4 :
  store_all (mkQueryState (repeat 0 5) results0 0) 0 [b0; b1; b2; b3; b4]
  = mkQueryState [b0; b1; b2; b3; b4]
      (array_set (array_set (array_set (array_set results0 0 b0) 1 b1) 2 b2) 3 b3)
      ((b0 + b1 + b2 + b3) mod 256).
Proof.
  cbn. unfold store_byte. cbn. f_equal. unfold to_uint8.
  rewrite (Z.add_mod_idemp_l b0 b1) by lia.
  rewrite (Z.add_mod_idemp_l (b0 + b1) b2) by lia.
  rewrite (Z.add_mod_idemp_l (b0 + b1 + b2) b3) by lia. reflexivity.
Qed.

(** A sensor that drives the line as the code samples it brings the
    session to the elapsed-time check with its payload. *)
Lemma session_reads_back GPIO fuel results0 w b0 b1 b2 b3 b4 :
  Forall (fun b => 0 <= b < 256) [b0; b1; b2; b3; b4] ->
  reads_next GPIO w (sensor_trace [b0; b1; b2; b3; b4]) ->
  reachesTimingCheck (S fuel) GPIO results0 w
    (mkQueryState [b0; b1; b2; b3; b4]
       (array_set (array_set (array_set (array_set results0 0 b0) 1 b1) 2 b2) 3 b3)
       ((b0 + b1 + b2 + b3) mod 256))
    (session_read GPIO w).
Proof.
  intros Hr H. exists (advance (awake GPIO w) 2 2). split.
  - apply wait_first_polls.
    + pose proof (H 0%nat ltac:(simpl; lia)) as H0.
      rewrite Nat.add_0_r in H0. exact H0.
    + pose proof (H 1%nat ltac:(simpl; lia)) as H1.
      rewrite Nat.add_1_r in H1. exact H1.
  - change 5%nat with (List.length [b0; b1; b2; b3; b4]).
    rewrite retrieveBytes_reads_back.
    + rewrite store_all_payload. reflexivity.
    + exact Hr.
    + apply (reads_next_app GPIO w _ [LOW; HIGH] _ H); [reflexivity|].
      simpl. lia.
Qed.

Lemma session_read_elapsed GPIO w :
  elapsed w (session_read GPIO w)
  = timersub (clock w (nclock w + 83)) (clock w (nclock w)).
Proof.
  unfold elapsed, session_read. cbn [clock nclock after_cells advance awake
    fold_left with_event with_clock with_sched scheduled].
  replace (S (nclock w) + 2 + 2 * 40)%nat with (nclock w + 83)%nat by lia.
  reflexivity.
Qed.

Lemma querySensor_reads_back_aux GPIO fuel w b0 b1 b2 b3 b4 :
  Forall (fun b => 0 <= b < 256) [b0; b1; b2; b3; b4] ->
  reads_next GPIO w (sensor_trace [b0; b1; b2; b3; b4]) ->
  tv_sec (timersub (clock w (nclock w + 83)) (clock w (nclock w))) = 0 ->
  tv_usec (timersub (clock w (nclock w + 83)) (clock w (nclock w))) <= 16000 ->
  querySensor (S fuel) GPIO (repeat 0 4) w
  = Some (((b0 + b1 + b2 + b3) mod 256 =? b4, [b0; b1; b2; b3]),
          finished (session_read GPIO w)).
Proof.
  intros Hr H Hsec Husec.
  destruct (session_reads_back GPIO fuel (repeat 0 4) w _ _ _ _ _ Hr H)
    as (w1 & Hack & Hbytes).
  rewrite querySensor_unfold, Hack, Hbytes.
  unfold verdict. rewrite session_read_elapsed, Hsec.
  replace (16000 <? tv_usec _) with false
    by (symmetry; apply Z.ltb_ge; exact Husec).
  cbn [Z.eqb negb orb queryChecksum retrievedBytes results array_get nth
       array_set repeat].
  change 255 with (Z.ones 8). rewrite Z.land_ones by lia.
  change (2 ^ 8) with 256. rewrite Z.mod_mod by lia. reflexivity.
Qed.

(** X3.  A sensor that answers the wake sequence with LOW, HIGH and then
    forty bit cells is read back byte for byte: when the 84th clock reading
    of the session is within the budget of the first, [querySensor] returns
    the comparison of the checksum with the fifth byte and stores the first
    four bytes, after 122 reads of the line. *)
Theorem querySensor_reads_back GPIO fuel w b0 b1 b2 b3 b4 :
  Forall (fun b => 0 <= b < 256) [b0; b1; b2; b3; b4] ->
  reads_next GPIO w (sensor_trace [b0; b1; b2; b3; b4]) ->
  tv_sec (timersub (clock w (nclock w + 83)) (clock w (nclock w))) = 0 ->
  tv_usec (timersub (clock w (nclock w + 83)) (clock w (nclock w))) <= 16000 ->
  exists w',
    querySensor (S fuel) GPIO (repeat 0 4) w
    = Some (((b0 + b1 + b2 + b3) mod 256 =? b4, [b0; b1; b2; b3]), w') /\
    nreads w' = (nreads w + 122)%nat /\
    nclock w' = (nclock w + 84)%nat /\
    policy w' = SCHED_OTHER.
Proof.
  intros Hr H Hsec Husec.
  exists (finished (session_read GPIO w)).
  split; [apply querySensor_reads_back_aux; assumption|].
  repeat split; simpl; lia.
Qed.

Lemma querySensor_reads_back_witness :
  exists w',
    querySensor 1 7 (repeat 0 4) scenario_world
    = Some ((true, [2; 140; 1; 8]), w') /\ nreads w' = 122%nat.
Proof.
  destruct (querySensor_reads_back 7 0 scenario_world 2 140 1 8 151)
    as (w' & H & Hn & _).
  - repeat constructor; lia.
  - apply scripted_world_reads_next.
  - vm_compute. reflexivity.
  - vm_compute. discriminate.
  - exists w'. split; [exact H | exact Hn].
Defined.

(** ** Which readings are accepted *)

Lemma in_range_accepted (b0 b1 b2 b3 : Z) :
  0 <= b0 < 256 -> 0 <= b1 < 256 -> 0 <= b2 < 256 -> 0 <= b3 < 256 ->
  b2 * 256 + b3 <= 800 -> b0 * 256 + b1 <= 1000 ->
  parseReading [b0; b1; b2; b3]
  = mkSensorOutput (tenth (b2 * 256 + b3)) (tenth (b0 * 256 + b1)) /\
  withinCapabilities (parseReading [b0; b1; b2; b3]) = true.
Proof.
  intros H0 H1 H2 H3 Ht Hh.
  assert (E : Z.land b2 128 = 0).
  { destruct (Z.eq_dec (Z.land b2 128) 0) as [E|E]; [exact E|].
    pose proof (sign_bit_set b2 H2 E). lia. }
  assert (P : parseReading [b0; b1; b2; b3]
              = mkSensorOutput (tenth (b2 * 256 + b3)) (tenth (b0 * 256 + b1))).
  { unfold parseReading. cbn [array_get nth]. rewrite E. reflexivity. }
  split; [exact P|]. rewrite P. apply withinCapabilities_iff.
  cbn [temperature humidity]. unfold tenth, SENSOR_TMP_MIN, SENSOR_TMP_MAX,
    SENSOR_HUM_MIN, SENSOR_HUM_MAX, Qle. simpl. lia.
Qed.

Lemma accepted_in_range (b0 b1 b2 b3 : Z) :
  0 <= b0 < 256 -> 0 <= b1 < 256 -> 0 <= b2 < 256 -> 0 <= b3 < 256 ->
  withinCapabilities (parseReading [b0; b1; b2; b3]) = true ->
  b2 * 256 + b3 <= 800 /\ b0 * 256 + b1 <= 1000.
Proof.
  intros H0 H1 H2 H3 W.
  destruct (accepted_temperature_nonneg b0 b1 b2 b3 H2 H3 W) as [_ E].
  apply withinCapabilities_iff in W. revert W.
  unfold parseReading. cbn [array_get nth]. rewrite E.
  cbn [Z.eqb negb temperature humidity].
  unfold rawTemperature, rawHumidity, SENSOR_TMP_MIN, SENSOR_TMP_MAX,
    SENSOR_HUM_MIN, SENSOR_HUM_MAX, Qle, array_get. simpl. lia.
Qed.

(** X4.  The range check of line 240, on the bytes: a reading is accepted
    exactly when the 16-bit temperature word is at most 800 and the 16-bit
    humidity word at most 1000; readings with the sign bit set are among
    those refused. *)
Theorem withinCapabilities_on_bytes (b0 b1 b2 b3 : Z) :
  0 <= b0 < 256 -> 0 <= b1 < 256 -> 0 <= b2 < 256 -> 0 <= b3 < 256 ->
  (withinCapabilities (parseReading [b0; b1; b2; b3]) = true <->
   b2 * 256 + b3 <= 800 /\ b0 * 256 + b1 <= 1000).
Proof.
  intros H0 H1 H2 H3. split.
  - apply accepted_in_range; assumption.
  - intros [Ht Hh].
    destruct (in_range_accepted b0 b1 b2 b3 H0 H1 H2 H3 Ht Hh) as [_ W].
    exact W.
Qed.

Lemma withinCapabilities_on_bytes_witness :
  withinCapabilities (parseReading [3; 232; 3; 32]) = true /\
  withinCapabilities (parseReading [3; 232; 3; 33]) = false.
Proof.
  split.
  - apply (withinCapabilities_on_bytes 3 232 3 32); lia.
  - destruct (withinCapabilities (parseReading [3; 232; 3; 33])) eqn:W;
      [|reflexivity].
    apply (withinCapabilities_on_bytes 3 232 3 33) in W; lia.
Defined.



(** ** What a successful session guarantees *)



(** ** How [parseSensorOutput] ends *)

(** X7.  When [wiringPiSetup] answers -1, [parseSensorOutput] exits with
    [EXIT_FAILURE] having done nothing but write to stderr: no fuel is
    needed, the line and the clock are not read, the policy is not touched.
    Otherwise it never exits: what it returns is a struct, and at least one
    session was started. *)
Theorem parseSensorOutput_exit_or_sessions NA fuel GPIO w :
  (wiringPi_status w = -1 ->
   exists msg,
     parseSensorOutput NA fuel GPIO w
     = Some (Exited EXIT_FAILURE, with_event w (EvStderr msg))) /\
  (wiringPi_status w <> -1 ->
   forall out w',
     parseSensorOutput NA fuel GPIO w = Some (out, w') ->
     exists r, out = Returned r /\ (sessions w < sessions w')%nat).
Proof.
  split.
  - intros Hs. rewrite parseSensorOutput_unfold, Hs. cbn [Z.eqb Pos.eqb].
    eexists. reflexivity.
  - intros Hs out w' H. rewrite parseSensorOutput_unfold in H.
    apply Z.eqb_neq in Hs. rewrite Hs in H.
    destruct (queryLoop NA 5 fuel GPIO w) as [[r w1]|] eqn:E; [|discriminate].
    inversion H; subst. exists r. split; [reflexivity|].
    apply queryLoop_sound in E.
    destruct E as [[_ Hr] | (k & data & w1 & _ & Hr & Hq & _)].
    + apply rejections_effect in Hr. lia.
    + apply rejections_effect in Hr. apply querySensor_effect in Hq. lia.
Qed.

Lemma parseSensorOutput_exit_or_sessions_witness :
  (exists msg,
     parseSensorOutput (-1000) 0 7 uninitialised_world
     = Some (Exited EXIT_FAILURE, with_event uninitialised_world (EvStderr msg)))
  /\ (exists r w',
        parseSensorOutput (-1000) 1 7 scenario_world = Some (Returned r, w')
        /\ (sessions scenario_world < sessions w')%nat).
Proof.
  split.
  - apply (parseSensorOutput_exit_or_sessions (-1000) 0 7 uninitialised_world).
    reflexivity.
  - assert (H : exists out w',
               parseSensorOutput (-1000) 1 7 scenario_world = Some (out, w')).
    { eexists. eexists. vm_compute. reflexivity. }
    destruct H as (out & w' & H).
    destruct (parseSensorOutput_exit_or_sessions (-1000) 1 7 scenario_world)
      as [_ Hr].
    destruct (Hr ltac:(discriminate) out w' H) as (r & -> & Hlt).
    exists r, w'. split; assumption.
Defined.

(** X8.  Every rejected attempt is followed by the 2000 ms cooldown, the
    last one too.  A struct is returned in one of two ways: after five
    rejected attempts, with five sessions and five cooldowns behind, and
    then it is the not-available value; or as the reading of a session that
    was accepted after [k < 5] rejected ones, with [k + 1] sessions and [k]
    cooldowns behind.  Five cooldowns are only taken on the first way.
    When the not-available value lies outside the documented ranges, it is
    only returned on the first way, after five sessions and five cooldowns;
    the condition is needed, see [parseSensorOutput_not_available_in_range]
    below. *)
Theorem parseSensorOutput_cooldowns NA fuel GPIO w r w' :
  parseSensorOutput NA fuel GPIO w = Some (Returned r, w') ->
  ((r = notAvailable NA /\
    sessions w' = (sessions w + 5)%nat /\
    cooldowns w' = (cooldowns w + 5)%nat)
   \/ (exists k, (k < 5)%nat /\
         withinCapabilities r = true /\
         sessions w' = (sessions w + k + 1)%nat /\
         cooldowns w' = (cooldowns w + k)%nat)) /\
  (cooldowns w' = (cooldowns w + 5)%nat ->
   r = notAvailable NA /\ sessions w' = (sessions w + 5)%nat) /\
  (withinCapabilities (notAvailable NA) = false ->
   r = notAvailable NA ->
   sessions w' = (sessions w + 5)%nat /\
   cooldowns w' = (cooldowns w + 5)%nat).
Proof.
  intros H. rewrite parseSensorOutput_unfold in H.
  destruct (wiringPi_status w =? -1); [discriminate|].
  destruct (queryLoop NA 5 fuel GPIO w) as [[r1 w1]|] eqn:E; [|discriminate].
  inversion H; subst. apply queryLoop_sound in E.
  destruct E as [[-> Hr] | (k & data & w1 & Hk & Hr & Hq & Hin & ->)].
  - apply rejections_effect in Hr. destruct Hr as [Hs Hc].
    split; [left; auto|]. split; auto.
  - apply rejections_effect in Hr. destruct Hr as [Hs Hc].
    apply querySensor_effect in Hq. destruct Hq as (Hs' & Hc' & _).
    split; [|split].
    + right. exists k. split; [exact Hk|]. split; [exact Hin|]. lia.
    + intros H5. lia.
    + intros Hna Heq. rewrite Heq in Hin. congruence.
Qed.

Lemma parseSensorOutput_cooldowns_witness :
  exists w',
    parseSensorOutput (-1000) 20 7 silent_world
    = Some (Returned (notAvailable (-1000)), w') /\
    sessions w' = 5%nat /\ cooldowns w' = 5%nat.
Proof.
  assert (H : exists w',
             parseSensorOutput (-1000) 20 7 silent_world
             = Some (Returned (notAvailable (-1000)), w')).
  { eexists. vm_compute. reflexivity. }
  destruct H as [w' H]. exists w'. split; [exact H|].
  destruct (parseSensorOutput_cooldowns _ _ _ _ _ _ H) as (_ & _ & Hna).
  apply Hna; reflexivity.
Defined.

(** A not-available value inside the documented ranges can also come back
    as a reading: with 0.0 for it, the sensor that falls silent after its
    acknowledgement gives the same struct after one session and no
    cooldown. *)
Lemma parseSensorOutput_not_available_in_range :
  withinCapabilities (notAvailable (tenth 0)) = true /\
  exists w',
    parseSensorOutput (tenth 0) 30 7 dropout_world
    = Some (Returned (notAvailable (tenth 0)), w') /\
    sessions w' = 1%nat /\ cooldowns w' = 0%nat.
Proof.
  split; [reflexivity|]. eexists.
  split; [vm_compute; reflexivity|].
  split; [vm_compute; reflexivity | vm_compute; reflexivity].
Qed.

Lemma querySensor_true_restored fuel GPIO results0 w data w' :
  querySensor fuel GPIO results0 w = Some ((true, data), w') ->
  policy w' = SCHED_OTHER /\ sched_priority w' = 0.
Proof.
  intros H. rewrite querySensor_unfold in H.
  destruct (sensorLowHighWait fuel GPIO (awake GPIO w)) as [[[|] w1]|];
    [| discriminate | discriminate].
  destruct (retrieveBytes 5 0 fuel GPIO _ w1) as [[st w2]|]; [|discriminate].
  inversion H; subst. split; reflexivity.
Qed.

(** X9.  Whenever [parseSensorOutput] returns a measurement, that is
    anything but the not-available value, the thread is back under the
    default policy with priority 0. *)
Theorem parseSensorOutput_measurement_default_policy NA fuel GPIO w r w' :
  parseSensorOutput NA fuel GPIO w = Some (Returned r, w') ->
  r <> notAvailable NA ->
  policy w' = SCHED_OTHER /\ sched_priority w' = 0.
Proof.
  intros H Hna. rewrite parseSensorOutput_unfold in H.
  destruct (wiringPi_status w =? -1); [discriminate|].
  destruct (queryLoop NA 5 fuel GPIO w) as [[r1 w1]|] eqn:E; [|discriminate].
  inversion H; subst. apply queryLoop_sound in E.
  destruct E as [[E _] | (k & data & w1 & _ & _ & Hq & _)]; [contradiction|].
  exact (querySensor_true_restored _ _ _ _ _ _ Hq).
Qed.

Lemma parseSensorOutput_measurement_default_policy_witness :
  exists r w',
    parseSensorOutput (-1000) 1 7 scenario_world = Some (Returned r, w') /\
    policy w' = SCHED_OTHER.
Proof.
  assert (H : exists w',
             parseSensorOutput (-1000) 1 7 scenario_world
             = Some (Returned (mkSensorOutput (264 # 10) (652 # 10)), w')).
  { eexists. vm_compute. reflexivity. }
  destruct H as [w' H]. eexists. exists w'. split; [exact H|].
  apply (parseSensorOutput_measurement_default_policy _ _ _ _ _ _ H).
  discriminate.
Defined.

(** ** No sensor on the line *)

Lemma querySensor_constant_line fuel GPIO w lvl q w' :
  (forall k, input w GPIO k = lvl) ->
  querySensor fuel GPIO (repeat 0 4) w = Some (q, w') ->
  fst q = FALSE /\
  policy w' = (if privileged w then SCHED_FIFO else policy w) /\
  input w' = input w /\ clock w' = clock w /\ privileged w' = privileged w.
Proof.
  intros Hline H. rewrite querySensor_unfold in H.
  destruct (sensorLowHighWait fuel GPIO (awake GPIO w)) as [[b w1]|] eqn:E;
    [|discriminate].
  assert (Hb : b = FALSE)
    by exact (constant_line_never_true GPIO (awake GPIO w) lvl _ _ _ Hline E).
  subst b. inversion H; subst.
  apply sensorLowHighWait_advance in E. destruct E as (r & c & ->).
  repeat split.
Qed.

Lemma rejections_fuel_mono GPIO fuel fuel' n w w' :
  rejections fuel GPIO n w w' -> (fuel <= fuel')%nat ->
  rejections fuel' GPIO n w w'.
Proof.
  intros H Hle. induction H as [w | n w w1 w2 Hr _ IH]; [constructor|].
  econstructor; [|exact IH].
  destruct Hr as (ok & data & w0 & Hq & Hrej & ->).
  exists ok, data, w0. split; [|split; [exact Hrej | reflexivity]].
  exact (querySensor_fuel_mono _ _ _ _ _ _ Hq Hle).
Qed.

Lemma rejections_constant_line GPIO lvl n : forall w,
  (forall k, input w GPIO k = lvl) -> clock_advances w ->
  exists fuel w',
    rejections fuel GPIO n w w' /\
    input w' = input w /\ clock w' = clock w /\
    privileged w' = privileged w /\
    ((0 < n)%nat ->
     policy w' = (if privileged w then SCHED_FIFO else policy w)).
Proof.
  induction n as [|n IH]; intros w Hline Ha.
  - exists 0%nat, w. split; [constructor|]. repeat split. lia.
  - destruct (querySensor_terminates GPIO (repeat 0 4) w Ha)
      as (f1 & [q w1] & Hq).
    destruct (querySensor_constant_line _ _ _ _ _ _ Hline Hq)
      as (Hok & Hp & Hi & Hk & Hv).
    destruct (IH (cooled w1)) as (f2 & w2 & Hr & Hi2 & Hk2 & Hv2 & Hp2).
    { intros k. unfold cooled. cbn [input with_event]. rewrite Hi. apply Hline. }
    { intros t k. unfold cooled. cbn [clock with_event]. rewrite Hk. apply Ha. }
    exists (f1 + f2)%nat, w2. split.
    + econstructor.
      * destruct q as [ok data]. cbn [fst] in Hok. subst ok.
        exists false, data, w1.
        split; [exact (querySensor_fuel_mono _ _ (f1 + f2)%nat _ _ _ Hq
                         ltac:(lia))|].
        split; [left; reflexivity | reflexivity].
      * apply rejections_fuel_mono with (fuel := f2); [exact Hr | lia].
    + split; [rewrite Hi2; exact Hi|]. split; [rewrite Hk2; exact Hk|].
      split; [rewrite Hv2; exact Hv|].
      intros _. destruct n as [|n].
      * inversion Hr; subst. exact Hp.
      * rewrite Hp2 by lia. unfold cooled. cbn [privileged policy with_event].
        rewrite Hv, Hp. destruct (privileged w); reflexivity.
Qed.

(** X10.  With no sensor, the line resting at one level, and a clock that
    advances, [parseSensorOutput] returns the not-available value after
    five sessions and five cooldowns.  Every session has returned at
    line 164, before the restore of line 190: a thread that has the
    privilege for the FIFO policy is left under it, and a thread whose
    request failed (line 55 ignores the failure) is left under the policy
    it came with. *)
Theorem parseSensorOutput_no_sensor NA GPIO w lvl :
  wiringPi_status w <> -1 ->
  (forall k, input w GPIO k = lvl) ->
  clock_advances w ->
  exists fuel w',
    parseSensorOutput NA fuel GPIO w
    = Some (Returned (notAvailable NA), w') /\
    sessions w' = (sessions w + 5)%nat /\
    cooldowns w' = (cooldowns w + 5)%nat /\
    policy w' = (if privileged w then SCHED_FIFO else policy w).
Proof.
  intros Hs Hline Ha.
  destruct (rejections_constant_line GPIO lvl 5 w Hline Ha)
    as (fuel & w' & Hr & _ & _ & _ & Hp).
  exists fuel, w'. rewrite parseSensorOutput_unfold.
  apply Z.eqb_neq in Hs. rewrite Hs.
  pose proof (queryLoop_rejections NA _ _ _ _ _ Hr 0%nat) as E.
  cbn [Nat.add] in E. rewrite E.
  apply rejections_effect in Hr. cbn [queryLoop ret].
  split; [reflexivity|]. split; [tauto|]. split; [tauto|]. apply Hp. lia.
Qed.

Lemma parseSensorOutput_no_sensor_witness :
  (exists fuel w',
     parseSensorOutput (-1000) fuel 7 ticking_world
     = Some (Returned (notAvailable (-1000)), w') /\ policy w' = SCHED_FIFO) /\
  (exists fuel w',
     parseSensorOutput (-1000) fuel 7 (unprivileged ticking_world)
     = Some (Returned (notAvailable (-1000)), w') /\ policy w' = SCHED_OTHER).
Proof.
  split.
  - destruct (parseSensorOutput_no_sensor (-1000) 7 ticking_world HIGH)
      as (fuel & w' & H & _ & _ & Hp).
    + discriminate.
    + intros k. unfold ticking_world, scripted_input. cbn [input].
      destruct k; reflexivity.
    + apply (ticking_clock_advances ticking_world 1700000000 0 100);
        [lia | lia | reflexivity].
    + exists fuel, w'. split; assumption.
  - destruct (parseSensorOutput_no_sensor (-1000) 7
                (unprivileged ticking_world) HIGH)
      as (fuel & w' & H & _ & _ & Hp).
    + discriminate.
    + intros k. unfold unprivileged, ticking_world, scripted_input.
      cbn [input]. destruct k; reflexivity.
    + apply (ticking_clock_advances (unprivileged ticking_world)
               1700000000 0 100); [lia | lia | reflexivity].
    + exists fuel, w'. split; assumption.
Defined.

(** ** A sensor that falls silent after its acknowledgement *)

Lemma retrieveByte_failed_wait fuel GPIO w w1 :
  sensorLowHighWait fuel GPIO w = Some (FALSE, w1) ->
  retrieveByte fuel GPIO w = Some (0, w1).
Proof.
  intros H. unfold retrieveByte. rewrite retrieveBits_S, H. reflexivity.
Qed.

Lemma retrieveBytes_failed_waits fuel GPIO n : forall byte st w w',
  failedWaits fuel GPIO n w w' ->
  retrieveBytes n byte fuel GPIO st w
  = Some (store_all st byte (repeat 0 n), w').
Proof.
  induction n as [|n IH]; intros byte st w w' H; inversion H; subst.
  - reflexivity.
  - rewrite retrieveBytes_S.
    rewrite (retrieveByte_failed_wait _ _ _ _ H1).
    cbn [repeat store_all]. apply IH. assumption.
Qed.

(** X11.  A byte whose first transition wait fails is the byte 0, and the
    session goes on: when the acknowledgement succeeds and each of the five
    bytes then fails at its first wait, the five bytes are 0, the checksum
    comparison is 0 against 0, and within the time budget [querySensor]
    answers TRUE and [parseSensorOutput] returns temperature 0 and
    humidity 0 at once. *)
Theorem parseSensorOutput_silent_after_ack NA fuel GPIO w w1 w2 :
  wiringPi_status w <> -1 ->
  sensorLowHighWait fuel GPIO (awake GPIO w) = Some (TRUE, w1) ->
  failedWaits fuel GPIO 5 w1 w2 ->
  tv_sec (elapsed w w2) = 0 -> tv_usec (elapsed w w2) <= 16000 ->
  querySensor fuel GPIO (repeat 0 4) w
  = Some ((TRUE, [0; 0; 0; 0]), finished w2) /\
  parseSensorOutput NA fuel GPIO w
  = Some (Returned (mkSensorOutput (tenth 0) (tenth 0)), finished w2) /\
  Qeq (tenth 0) 0.
Proof.
  intros Hs Hack Hf Hsec Husec.
  assert (Hq : querySensor fuel GPIO (repeat 0 4) w
               = Some ((TRUE, [0; 0; 0; 0]), finished w2)).
  { rewrite querySensor_unfold, Hack.
    rewrite (retrieveBytes_failed_waits _ _ _ _ _ _ _ Hf).
    unfold verdict. rewrite Hsec.
    replace (16000 <? tv_usec (elapsed w w2)) with false
      by (symmetry; apply Z.ltb_ge; exact Husec).
    reflexivity. }
  split; [exact Hq|]. split; [|reflexivity].
  rewrite parseSensorOutput_unfold. apply Z.eqb_neq in Hs. rewrite Hs.
  rewrite queryLoop_S, Hq. reflexivity.
Qed.

Lemma parseSensorOutput_silent_after_ack_witness :
  exists w',
    parseSensorOutput (-1000) 30 7 dropout_world
    = Some (Returned (mkSensorOutput (tenth 0) (tenth 0)), w') /\
    microseconds (clock dropout_world 113)
    - microseconds (clock dropout_world 0) = 15640.
Proof.
  assert (Hack : exists w1,
             sensorLowHighWait 30 7 (awake 7 dropout_world) = Some (TRUE, w1)).
  { eexists. vm_compute. reflexivity. }
  destruct Hack as [w1 Hack].
  assert (Hf : exists w2, failedWaits 30 7 5 w1 w2 /\ nclock w2 = 113%nat).
  { revert Hack. vm_compute. intros Hack. inversion Hack; subst. clear Hack.
    eexists. split.
    - do 5 (eapply failedWaits_S; [vm_compute; reflexivity|]).
      apply failedWaits_O.
    - reflexivity. }
  destruct Hf as (w2 & Hf & Hn).
  assert (Hk : clock w2 = clock dropout_world).
  { clear Hn. pose proof (sensorLowHighWait_quiet _ _ _ _ _ Hack) as Q1.
    assert (Q2 : forall n a b, failedWaits 30 7 n a b -> clock b = clock a).
    { induction 1 as [|n a a1 b Hw _ IH]; [reflexivity|].
      rewrite IH. apply (quiet_clock _ _ (sensorLowHighWait_quiet _ _ _ _ _ Hw)). }
    rewrite (Q2 _ _ _ Hf), (quiet_clock _ _ Q1). reflexivity. }
  exists (finished w2).
  split; [|vm_compute; reflexivity].
  apply (parseSensorOutput_silent_after_ack (-1000) 30 7 dropout_world w1 w2).
  - discriminate.
  - exact Hack.
  - exact Hf.
  - unfold elapsed. rewrite Hk, Hn. vm_compute. reflexivity.
  - unfold elapsed. rewrite Hk, Hn. vm_compute. discriminate.
Defined.

(** ** The driver calls of a session *)

Lemma retrieveBits_log GPIO fuel remaining : forall result w v w',
  retrieveBits remaining fuel GPIO result w = Some (v, w') ->
  exists k, (k <= remaining)%nat /\
            log w' = repeat (EvDelayMicroseconds 30) k ++ log w.
Proof.
  induction remaining as [|n IH]; intros result w v w' H.
  - inversion H; subst. exists 0%nat. split; [lia | reflexivity].
  - rewrite retrieveBits_S in H.
    destruct (sensorLowHighWait fuel GPIO w) as [[[|] w1]|] eqn:E;
      [| |discriminate];
      apply sensorLowHighWait_advance in E; destruct E as (r & c & ->).
    + apply IH in H. destruct H as (k & Hk & Hl). exists (S k).
      split; [lia|]. rewrite Hl. unfold sample_after.
      cbn [snd log advance with_event].
      change (EvDelayMicroseconds 30 :: log w)
        with ([EvDelayMicroseconds 30] ++ log w).
      rewrite app_assoc, <- repeat_cons. reflexivity.
    + inversion H; subst. exists 0%nat. split; [lia | reflexivity].
Qed.

Lemma retrieveBytes_log GPIO fuel remaining : forall byte st w st' w',
  retrieveBytes remaining byte fuel GPIO st w = Some (st', w') ->
  exists k, (k <= 8 * remaining)%nat /\
            log w' = repeat (EvDelayMicroseconds 30) k ++ log w.
Proof.
  induction remaining as [|n IH]; intros byte st w st' w' H.
  - inversion H; subst. exists 0%nat. split; [lia | reflexivity].
  - rewrite retrieveBytes_S in H.
    destruct (retrieveByte fuel GPIO w) as [[b w1]|] eqn:E; [|discriminate].
    apply retrieveBits_log in E. destruct E as (k1 & Hk1 & Hl1).
    apply IH in H. destruct H as (k2 & Hk2 & Hl2).
    exists (k2 + k1)%nat. split; [lia|].
    rewrite Hl2, Hl1, app_assoc, <- repeat_app. reflexivity.
Qed.

Lemma log_advance w r c : log (advance w r c) = log w.
Proof. reflexivity. Qed.

Lemma last_pin_mode_skip_delays GPIO k l :
  last_pin_mode GPIO (repeat (EvDelayMicroseconds 30) k ++ l)
  = last_pin_mode GPIO l.
Proof. induction k as [|k IH]; [reflexivity | exact IH]. Qed.

Lemma log_finished w : log (finished w) = EvSched SCHED_OTHER 0 :: log w.
Proof. reflexivity. Qed.

(** X12.  The driver calls of one [querySensor], in order: the FIFO
    request, pin to output, LOW, 10 ms, HIGH, 40 microseconds, pin to
    input, then at most forty 30 microsecond delays, and then the request
    for the default policy exactly when the acknowledgement wait of
    line 163 succeeded.  When that wait failed, no call follows the
    handshake and the session returns failure in the world the wait ended
    in.  The line is never written after the handshake, and the pin is left
    in input mode. *)
Theorem querySensor_driver_calls fuel GPIO results0 w q w' :
  querySensor fuel GPIO results0 w = Some (q, w') ->
  exists ack w1 k,
    sensorLowHighWait fuel GPIO (awake GPIO w) = Some (ack, w1) /\
    (k <= 40)%nat /\
    log w' = (if ack then [EvSched SCHED_OTHER 0] else [])
             ++ repeat (EvDelayMicroseconds 30) k
             ++ session_calls GPIO (fifo_priority_max w) ++ log w /\
    (ack = false -> k = 0%nat /\ q = (FALSE, results0) /\ w' = w1) /\
    last_pin_mode GPIO (log w') = Some INPUT.
Proof.
  intros H. rewrite querySensor_unfold in H.
  assert (Hawake : log (awake GPIO w)
                   = session_calls GPIO (fifo_priority_max w) ++ log w)
    by reflexivity.
  assert (Hpin : last_pin_mode GPIO
                   (session_calls GPIO (fifo_priority_max w) ++ log w)
                 = Some INPUT).
  { cbn [session_calls app last_pin_mode]. rewrite Z.eqb_refl. reflexivity. }
  revert H Hawake. generalize (awake GPIO w). intros wa H Hawake.
  destruct (sensorLowHighWait fuel GPIO wa) as [[[|] w1]|] eqn:E;
    [| |discriminate];
    destruct (sensorLowHighWait_advance _ _ _ _ _ E) as (r & c & Hw1).
  - destruct (retrieveBytes 5 0 fuel GPIO _ w1) as [[st w2]|] eqn:E2;
      [|discriminate].
    apply retrieveBytes_log in E2. destruct E2 as (k & Hk & Hl).
    rewrite Hw1, log_advance, Hawake in Hl.
    inversion H; subst q w'. exists true, w1, k.
    split; [reflexivity|]. split; [lia|].
    rewrite log_finished, Hl. split; [reflexivity|].
    split; [discriminate|].
    cbn [last_pin_mode]. rewrite last_pin_mode_skip_delays. exact Hpin.
  - inversion H; subst q w'. exists false, w1, 0%nat.
    split; [reflexivity|]. split; [lia|].
    rewrite Hw1, log_advance, Hawake.
    split; [reflexivity|]. split; [|exact Hpin].
    intros _. repeat split.
Qed.

Lemma querySensor_driver_calls_witness :
  (exists q w',
     querySensor 1 7 (repeat 0 4) scenario_world = Some (q, w') /\
     log w' = [EvSched SCHED_OTHER 0] ++ repeat (EvDelayMicroseconds 30) 40
              ++ session_calls 7 99) /\
  (exists w',
     querySensor 20 7 (repeat 0 4) silent_world
     = Some ((FALSE, repeat 0 4), w') /\
     log w' = session_calls 7 99).
Proof.
  split.
  - assert (H : exists q w',
               querySensor 1 7 (repeat 0 4) scenario_world = Some (q, w')).
    { eexists. eexists. vm_compute. reflexivity. }
    destruct H as (q & w' & H). exists q, w'. split; [exact H|].
    destruct (querySensor_driver_calls _ _ _ _ _ _ H)
      as (ack & w1 & k & Hack & _ & Hl & _ & _).
    assert (Hw : exists w1', sensorLowHighWait 1 7 (awake 7 scenario_world)
                             = Some (true, w1')).
    { eexists. vm_compute. reflexivity. }
    destruct Hw as (w1' & Hw). rewrite Hw in Hack.
    inversion Hack; subst ack w1.
    assert (Hk : List.length (log w') = 48%nat).
    { assert (Hc : exists x, querySensor 1 7 (repeat 0 4) scenario_world
                             = Some x /\ List.length (log (snd x)) = 48%nat).
      { eexists. split; vm_compute; reflexivity. }
      destruct Hc as (x & Hx & Hlen). rewrite H in Hx.
      inversion Hx; subst x. exact Hlen. }
    rewrite Hl in Hk |- *. rewrite !length_app, repeat_length in Hk.
    cbn [List.length session_calls log scenario_world scripted_world] in Hk.
    replace k with 40%nat by lia. rewrite app_nil_r. reflexivity.
  - assert (H : exists w', querySensor 20 7 (repeat 0 4) silent_world
                           = Some ((FALSE, repeat 0 4), w')).
    { eexists. vm_compute. reflexivity. }
    destruct H as (w' & H). exists w'. split; [exact H|].
    destruct (querySensor_driver_calls _ _ _ _ _ _ H)
      as (ack & w1 & k & Hack & _ & Hl & Hfail & _).
    assert (Hw : exists w1', sensorLowHighWait 20 7 (awake 7 silent_world)
                             = Some (false, w1')).
    { eexists. vm_compute. reflexivity. }
    destruct Hw as (w1' & Hw). rewrite Hw in Hack.
    inversion Hack; subst ack w1.
    destruct (Hfail eq_refl) as (-> & _ & _).
    rewrite Hl. reflexivity.
Defined.

(** ** How long the busy-wait loops can poll *)

Lemma same_clock_normalised w w' :
  clock w' = clock w -> normalised_clock w -> normalised_clock w'.
Proof. intros E H k. rewrite E. apply H. Qed.

Lemma same_clock_ticks w w' :
  clock w' = clock w -> clock_ticks w -> clock_ticks w'.
Proof. intros E H k. rewrite E. apply H. Qed.

Lemma pollWhile_bounded GPIO lvl start :
  normalised start ->
  forall f w,
    normalised_clock w -> clock_ticks w ->
    microseconds start + 1000 < microseconds (clock w (nclock w)) + Z.of_nat f ->
    exists r, pollWhile (S f) GPIO lvl (one_ms_after start) w = Some r.
Proof.
  intros Hs. induction f as [|f IH]; intros w Hc Ht Hlt;
    rewrite pollWhile_S; unfold one_ms_after;
    rewrite deadline_passed by (auto; apply Hc);
    (destruct (level_eqb (input w GPIO (nreads w)) lvl); [|eauto]);
    destruct (microseconds start + 1000 <? microseconds (clock w (nclock w)))
      eqn:T; try (eexists; reflexivity); apply Z.ltb_ge in T.
  - lia.
  - apply (IH (advance w 1 1) Hc Ht). cbn [clock nclock advance].
    pose proof (Ht (nclock w)) as Hk.
    rewrite Nat.add_1_r. lia.
Qed.

Lemma first_poll_in_time v f :
  clock_ticks v -> (1000 <= f)%nat ->
  microseconds (clock v (nclock v)) + 1000
  < microseconds (clock (advance v 0 1) (nclock (advance v 0 1))) + Z.of_nat f.
Proof.
  intros Ht Hf. cbn [clock nclock advance]. rewrite Nat.add_1_r.
  pose proof (Ht (nclock v)). lia.
Qed.

Lemma sensorLowHighWait_bounded GPIO fuel w :
  normalised_clock w -> clock_ticks w -> (1001 <= fuel)%nat ->
  exists r, sensorLowHighWait fuel GPIO w = Some r.
Proof.
  intros Hc Ht Hf. destruct fuel as [|f]; [lia|].
  rewrite sensorLowHighWait_unfold.
  destruct (pollWhile_bounded GPIO HIGH (clock w (nclock w)) (Hc _) f
              (advance w 0 1) Hc Ht (first_poll_in_time w f Ht ltac:(lia)))
    as [[b1 w1] E1].
  rewrite E1. destruct b1; [|eauto].
  destruct (pollWhile_advance _ _ _ _ _ _ _ E1) as (r & c & Hw1).
  assert (Hc1 : normalised_clock w1) by (subst w1; exact Hc).
  assert (Ht1 : clock_ticks w1) by (subst w1; exact Ht).
  destruct (pollWhile_bounded GPIO LOW (clock w1 (nclock w1)) (Hc1 _) f
              (advance w1 0 1) Hc1 Ht1
              (first_poll_in_time w1 f Ht1 ltac:(lia)))
    as [[b2 w2] E2].
  rewrite E2. destruct b2; eauto.
Qed.

Lemma retrieveBits_bounded GPIO fuel remaining : forall result w,
  normalised_clock w -> clock_ticks w -> (1001 <= fuel)%nat ->
  exists r, retrieveBits remaining fuel GPIO result w = Some r.
Proof.
  induction remaining as [|n IH]; intros result w Hc Ht Hf.
  - eexists. reflexivity.
  - rewrite retrieveBits_S.
    destruct (sensorLowHighWait_bounded GPIO fuel w Hc Ht Hf) as [[b w1] E].
    rewrite E. destruct b; [|eauto].
    apply sensorLowHighWait_quiet in E.
    apply IH; [| |exact Hf].
    + apply (same_clock_normalised w); [|exact Hc].
      exact (quiet_clock _ _ E).
    + apply (same_clock_ticks w); [|exact Ht].
      exact (quiet_clock _ _ E).
Qed.

Lemma retrieveBytes_bounded GPIO fuel remaining : forall byte st w,
  normalised_clock w -> clock_ticks w -> (1001 <= fuel)%nat ->
  exists r, retrieveBytes remaining byte fuel GPIO st w = Some r.
Proof.
  induction remaining as [|n IH]; intros byte st w Hc Ht Hf.
  - eexists. reflexivity.
  - rewrite retrieveBytes_S.
    destruct (retrieveBits_bounded GPIO fuel 8 0 w Hc Ht Hf) as [[b w1] E].
    unfold retrieveByte. rewrite E. apply retrieveBits_quiet in E.
    apply IH; [| |exact Hf].
    + apply (same_clock_normalised w); [exact (quiet_clock _ _ E) | exact Hc].
    + apply (same_clock_ticks w); [exact (quiet_clock _ _ E) | exact Ht].
Qed.

Lemma querySensor_bounded GPIO fuel results0 w :
  normalised_clock w -> clock_ticks w -> (1001 <= fuel)%nat ->
  exists r, querySensor fuel GPIO results0 w = Some r.
Proof.
  intros Hc Ht Hf. rewrite querySensor_unfold.
  destruct (sensorLowHighWait_bounded GPIO fuel (awake GPIO w) Hc Ht Hf)
    as [[b w1] E].
  rewrite E. destruct b; [|eauto]. apply sensorLowHighWait_quiet in E.
  destruct (retrieveBytes_bounded GPIO fuel 5 0
              (mkQueryState (repeat 0 5) results0 0) w1) as [[st w2] E2].
  - apply (same_clock_normalised w); [exact (quiet_clock _ _ E) | exact Hc].
  - apply (same_clock_ticks w); [exact (quiet_clock _ _ E) | exact Ht].
  - exact Hf.
  - rewrite E2. eauto.
Qed.

Lemma queryLoop_bounded NA GPIO fuel n : forall w,
  normalised_clock w -> clock_ticks w -> (1001 <= fuel)%nat ->
  exists r, queryLoop NA n fuel GPIO w = Some r.
Proof.
  induction n as [|n IH]; intros w Hc Ht Hf.
  - eexists. reflexivity.
  - rewrite queryLoop_S.
    destruct (querySensor_bounded GPIO fuel (repeat 0 4) w Hc Ht Hf)
      as [[[ok data] w1] E].
    rewrite E. destruct (ok && withinCapabilities (parseReading data));
      [eauto|].
    apply querySensor_effect in E. destruct E as (_ & _ & Hk & _).
    apply IH; [| |exact Hf].
    + apply (same_clock_normalised w); [exact Hk | exact Hc].
    + apply (same_clock_ticks w); [exact Hk | exact Ht].
Qed.

(** X13.  When successive clock readings are normalised and strictly
    increase, no busy-wait loop polls more than 1001 times: with that much
    fuel [sensorLowHighWait] answers, and [parseSensorOutput] comes back,
    for every behaviour of the line. *)
Theorem parseSensorOutput_polls_bounded NA GPIO fuel w :
  normalised_clock w -> clock_ticks w -> (1001 <= fuel)%nat ->
  (exists b w', sensorLowHighWait fuel GPIO w = Some (b, w')) /\
  (exists out w', parseSensorOutput NA fuel GPIO w = Some (out, w')).
Proof.
  intros Hc Ht Hf. split.
  - destruct (sensorLowHighWait_bounded GPIO fuel w Hc Ht Hf) as [[b w'] E].
    eauto.
  - rewrite parseSensorOutput_unfold.
    destruct (wiringPi_status w =? -1); [eauto|].
    destruct (queryLoop_bounded NA GPIO fuel 5 w Hc Ht Hf) as [[r w'] E].
    rewrite E. eauto.
Qed.

Lemma ticking_clock_microseconds sec usec step k :
  microseconds (ticking_clock sec usec step k)
  = sec * 1000000 + usec + step * Z.of_nat k.
Proof.
  unfold microseconds, ticking_clock. cbn [tv_sec tv_usec].
  pose proof (Z.div_mod (usec + step * Z.of_nat k) 1000000 ltac:(lia)). lia.
Qed.

Lemma parseSensorOutput_polls_bounded_witness :
  exists out w', parseSensorOutput (-1000) 1001 7 ticking_world = Some (out, w').
Proof.
  apply (parseSensorOutput_polls_bounded (-1000) 7 1001 ticking_world).
  - exact (ticking_clock_normalised _ _ _).
  - intros k. unfold ticking_world. cbn [clock].
    rewrite !ticking_clock_microseconds. lia.
  - lia.
Defined.
